(** * Vector indexing, retrieval and reranking pipelines

    A shallow embedding of
      - [knowledgehub/indices/vectorindex.py]   ([VectorIndexing], [VectorRetrieval]),
      - [knowledgehub/indices/rankings/cohere.py] ([CohereReranking]),
      - [knowledgehub/pipelines/indexing.py]    ([IndexVectorStoreFromDocumentPipeline]),
    together with the properties the specification states about them.

    Python objects live in a heap addressed by locations, so that two
    references to one [Document] are seen to alias.  The collaborators the
    pipelines are given (embedding model, vector store, document store,
    rerankers, the Cohere client, [uuid], [pathlib]) are not part of the
    repository: they are parameters, each a function over the state of
    the outside world that may also raise.  Every call to a method of a
    collaborator is recorded as an [Event], which is how "called once" and
    "never called" are stated. *)

From Stdlib Require Import ZArith.
From stdpp Require Import base option list strings pretty gmap.

Set Default Proof Using "Type".

(* ===================================================================== *)
(** * Part I: the program *)
(* ===================================================================== *)

(** ** What the interpreter and the libraries provide *)

(** Python floats are only ever passed along by this code (scores,
    embedding coordinates), never computed on, so their type is a
    parameter.  So are the state of the outside world, [pathlib.Path] with
    its constructor and its [/] operator, and [str(uuid.uuid4())]. *)
Class Platform := {
  float : Type;
  World : Type;
  Path : Type;
  Path_of_str : string → Path;
  Path_truediv : Path → string → Path;
  uuid4 : World → string * World;
}.

(** Object identity. *)
Definition loc := positive.

(** Exceptions.  [Foreign] stands for whatever a collaborator raises;
    [Dangling] is the model's answer to a reference that names no object,
    which no Python run can produce. *)
Inductive exn :=
| ValueError (msg : string)
| AttributeError (msg : string)
| IndexError (msg : string)
| ImportError (msg : string)
| Foreign (what : string)
| Dangling (l : loc).

Inductive Res (A : Type) :=
| Ok (a : A)
| Raise (e : exn).
Arguments Ok {A} a.
Arguments Raise {A} e.

(** The values a caller can hand to [run]: a string, a [Document]
    (by reference), a list, or an object of some other class, of which
    only the name of the type matters. *)
#[warnings="-register-all"]
Inductive PyVal :=
| PStr (s : string)
| PDoc (d : loc)
| PList (xs : list PyVal)
| PObj (type_name : string).

(** What the embedding model returns, one per input; the code reads
    only the [embedding] attribute. *)
Module DocumentWithEmbedding.
Record t `{Platform} := mk {
  embedding : list float;
}.
Arguments mk {_} _.
Arguments embedding {_} _.
End DocumentWithEmbedding.
Abbreviation DocumentWithEmbedding := DocumentWithEmbedding.t.

Section Runtime.
Context `{Platform}.

Inductive MetaValue :=
| MStr (s : string)
| MFloat (x : float).

(** Modelled from the spec: [kotaemon.base.Document] and its subclass
    [RetrievedDocument] are imported, not defined, by the sources at
    hand.  A document has an identifier, a text content and a metadata
    mapping with string keys; a retrieved document has a score as well
    ([score = None] for a plain [Document]). *)
Record Document := mkDocument {
  id_ : string;
  text : string;
  metadata : gmap string MetaValue;
  score : option float;
}.

(** Modelled from the spec: [d.content], which for a text document is
    its text. *)
Definition content (d : Document) : string := text d.

(** [Document(text=t, id_=i)] *)
Definition Document_new (t i : string) : Document :=
  mkDocument i t ∅ None.

(** Modelled from the spec: a [RetrievedDocument] built from the fields
    of [doc] ([doc.to_dict()]) and the keyword [score=s], that is the
    document paired with its score. *)
Definition RetrievedDocument_new (doc : Document) (s : float) : Document :=
  mkDocument (id_ doc) (text doc) (metadata doc) (Some s).

(** [doc.metadata[k] = v] *)
Definition set_meta (k : string) (v : MetaValue) (d : Document) : Document :=
  mkDocument (id_ d) (text d) (<[k := v]> (metadata d)) (score d).

Record Mem := mkMem {
  heap : gmap loc Document;
  world : World;
}.

Inductive Event :=
| EvUuid4 (out : string)
| EvEmbedding (arg : PyVal)
| EvVsAdd (embeddings : list DocumentWithEmbedding) (ids : list string)
| EvVsQuery (emb : list float) (top_k : Z)
| EvVsSave (p : Path)
| EvVsLoad (p : Path)
| EvDsAdd (docs : list loc)
| EvDsGet (ids : list string)
| EvDsSave (p : Path)
| EvDsLoad (p : Path)
| EvRerank (position : nat) (documents : list loc) (query : PyVal)
| EvCohereClient (api_key : string)
| EvCohereRerank (model : string) (query : PyVal)
                 (documents : list string) (top_n : Z).

(** A computation reads and writes memory, returns or raises, and
    emits the events of the calls it made.  Effects made before an
    exception stay. *)
Definition M (A : Type) : Type := Mem → Res A * Mem * list Event.

Definition ret {A} (a : A) : M A := λ m, (Ok a, m, []).

Definition raise {A} (e : exn) : M A := λ m, (Raise e, m, []).

Definition bind {A B} (c : M A) (k : A → M B) : M B := λ m,
  match c m with
  | (Ok a, m1, ev1) =>
      match k a m1 with
      | (r, m2, ev2) => (r, m2, ev1 ++ ev2)
      end
  | (Raise e, m1, ev1) => (Raise e, m1, ev1)
  end.

(** A call to a collaborator that sees the documents but does not
    change them. *)
Definition call {A} (ev : Event)
    (f : gmap loc Document → World → Res A * World) : M A := λ m,
  match f (heap m) (world m) with
  | (r, w) => (r, mkMem (heap m) w, [ev])
  end.

Definition fresh_uuid : M string := λ m,
  match uuid4 (world m) with
  | (u, w) => (Ok u, mkMem (heap m) w, [EvUuid4 u])
  end.

(** Object creation. *)
Definition new_object (d : Document) : M loc := λ m,
  let l := fresh (dom (heap m)) in
  (Ok l, mkMem (<[l := d]> (heap m)) (world m), []).

(** Attribute read through a reference. *)
Definition deref (l : loc) : M Document := λ m,
  match heap m !! l with
  | Some d => (Ok d, m, [])
  | None => (Raise (Dangling l), m, [])
  end.

(** In-place update of the object behind a reference. *)
Definition update (l : loc) (f : Document → Document) : M unit := λ m,
  match heap m !! l with
  | Some d => (Ok tt, mkMem (<[l := f d]> (heap m)) (world m), [])
  | None => (Raise (Dangling l), m, [])
  end.

(** [l[i]] on a Python list: negative indices count from the end,
    anything else out of range raises [IndexError]. *)
Definition list_getitem {A} (l : list A) (i : Z) : option A :=
  let n := Z.of_nat (length l) in
  if (0 <=? i)%Z then l !! Z.to_nat i
  else if (- n <=? i)%Z then l !! Z.to_nat (n + i)
  else None.

Definition getitem {A} (l : list A) (i : Z) : M A :=
  match list_getitem l i with
  | Some a => ret a
  | None => raise (IndexError "list index out of range")
  end.

(** A list comprehension with an effectful body. *)
Fixpoint for_each {A B} (f : A → M B) (l : list A) : M (list B) :=
  match l with
  | [] => ret []
  | a :: l' =>
      bind (f a) (λ b, bind (for_each f l') (λ bs, ret (b :: bs)))
  end.

(** Which collaborator an event is a call to. *)
Definition is_embedding_call (e : Event) : bool :=
  match e with EvEmbedding _ => true | _ => false end.
Definition is_vector_add (e : Event) : bool :=
  match e with EvVsAdd _ _ => true | _ => false end.
Definition is_vector_query (e : Event) : bool :=
  match e with EvVsQuery _ _ => true | _ => false end.
Definition is_doc_add (e : Event) : bool :=
  match e with EvDsAdd _ => true | _ => false end.
Definition is_doc_fetch (e : Event) : bool :=
  match e with EvDsGet _ => true | _ => false end.
Definition is_rerank_call (e : Event) : bool :=
  match e with EvRerank _ _ _ => true | _ => false end.
Definition is_ranking_service_call (e : Event) : bool :=
  match e with EvCohereRerank _ _ _ _ => true | _ => false end.
Definition is_uuid_call (e : Event) : bool :=
  match e with EvUuid4 _ => true | _ => false end.

Definition calls (p : Event → bool) (evs : list Event) : nat :=
  length (List.filter p evs).

(** The identifiers handed out by [uuid4], in order. *)
Definition uuids (evs : list Event) : list string :=
  omap (λ e, match e with EvUuid4 u => Some u | _ => None end) evs.
End Runtime.

Arguments Document {_}.
Arguments Mem {_}.
Arguments Event {_}.
Arguments MetaValue {_}.

Declare Scope py_scope.
Delimit Scope py_scope with py.
Notation "'let*' x ':=' c 'in' k" := (bind c (λ x, k))
  (at level 10, x pattern, c at level 100, k at level 200) : py_scope.
Open Scope py_scope.

(** ** The collaborators the pipelines are given

    [kotaemon.embeddings], [kotaemon.storages] and [.rankings.base] are
    imported by the sources and not part of them; each is taken as the
    record of the methods the pipelines call. *)
Section Collaborators.
Context `{Platform}.

(** [embedding(x)], with [x] a list of documents or a single query. *)
Record BaseEmbeddings := {
  emb_call : PyVal → gmap loc Document → World →
             Res (list DocumentWithEmbedding) * World;
}.

Record BaseVectorStore := {
  vs_add : list DocumentWithEmbedding → list string → World →
           Res unit * World;
  vs_query : list float → Z → World →
             Res (list (list float) * list float * list string) * World;
  vs_save : Path → World → Res unit * World;
  vs_load : Path → World → Res unit * World;
}.

(** [get] hands back documents whose fields the caller reads at once
    and never again, so it is taken to return their fields.  [ds_bool]
    is the value of the store in a boolean test, [bool(store)]: what its
    class makes of [__bool__] or [__len__], and true for a class that
    defines neither.  It is taken to read the state of the store and to
    do nothing else, and is not recorded as an event. *)
Record BaseDocumentStore := {
  ds_bool : World → bool;
  ds_add : list loc → gmap loc Document → World → Res unit * World;
  ds_get : list string → World → Res (list Document) * World;
  ds_save : Path → World → Res unit * World;
  ds_load : Path → World → Res unit * World;
}.

(** [reranker(documents=..., query=...)]: any computation, free to
    change the documents it is given. *)
Record BaseReranking := {
  rr_run : list loc → PyVal → M (list loc);
}.

(** The [cohere] package: [cohere.Client(key)] and [client.rerank(...)].
    Neither is given a reference to a document. *)
Record RerankResult := mkRerankResult {
  index : Z;
  relevance_score : float;
}.

Record CohereModule := {
  Client : Type;
  Client_new : string → World → Res Client * World;
  Client_rerank : Client → string → PyVal → list string → Z → World →
                  Res (list RerankResult) * World;
}.

(** The test [if store:] on a store object. *)
Definition truth (store : BaseDocumentStore) : M bool :=
  λ m, (Ok (ds_bool store (world m)), m, []).
End Collaborators.

Arguments BaseEmbeddings {_}.
Arguments BaseVectorStore {_}.
Arguments BaseDocumentStore {_}.
Arguments BaseReranking {_}.
Arguments RerankResult {_}.
Arguments CohereModule {_}.

(** ** [knowledgehub/indices/vectorindex.py] *)

Definition VECTOR_STORE_FNAME : string := "vectorstore".
Definition DOC_STORE_FNAME : string := "docstore".

(** [type(item)] as the f-string prints it. *)
Definition type_repr (v : PyVal) : string :=
  match v with
  | PStr _ => "<class 'str'>"
  | PDoc _ => "<class 'kotaemon.base.schema.Document'>"
  | PList _ => "<class 'list'>"
  | PObj n => "<class '" +:+ n +:+ "'>"
  end.

Module VectorIndexing.
Section Defs.
Context `{Platform}.

(** [doc_store] is optional: [None], or a store object. *)
Record t := {
  vector_store : BaseVectorStore;
  doc_store : option BaseDocumentStore;
  embedding : BaseEmbeddings;
}.

(** [if not isinstance(text, list): text = [text]] *)
Definition as_list (text : PyVal) : list PyVal :=
  match text with
  | PList xs => xs
  | _ => [text]
  end.

(** The [for item in text] loop, [input_] being the list built so far. *)
Fixpoint collect (items : list PyVal) (input_ : list loc) : M (list loc) :=
  match items with
  | [] => ret input_
  | item :: rest =>
      match item with
      | PStr s =>
          let* u := fresh_uuid in
          let* d := new_object (Document_new s u) in
          collect rest (input_ ++ [d])
      | PDoc d => collect rest (input_ ++ [d])
      | _ =>
          raise (ValueError ("Invalid input type " +:+ type_repr item
                             +:+ ", should be str or Document"))
      end
  end.

(** Lines 62-68, shared with [run_batch_document] of the other
    pipeline up to the names.  The last statement is
    [if self.doc_store: self.doc_store.add(input_)], a boolean test and
    not a comparison with [None]: [None] is false, a store object is
    what its class says. *)
Definition store (self : t) (input_ : list loc) : M unit :=
  let* embeddings :=
    call (EvEmbedding (PList (PDoc <$> input_)))
         (emb_call (embedding self) (PList (PDoc <$> input_))) in
  let* ids := for_each (λ t, let* d := deref t in ret (id_ d)) input_ in
  let* _ := call (EvVsAdd embeddings ids)
                 (λ _, vs_add (vector_store self) embeddings ids) in
  match doc_store self with
  | Some ds =>
      let* b := truth ds in
      if b then call (EvDsAdd input_) (ds_add ds input_) else ret tt
  | None => ret tt
  end.

Definition run (self : t) (text : PyVal) : M unit :=
  let* input_ := collect (as_list text) [] in
  store self input_.
End Defs.
End VectorIndexing.

Module VectorRetrieval.
Section Defs.
Context `{Platform}.

Record t := {
  vector_store : BaseVectorStore;
  doc_store : option BaseDocumentStore;
  embedding : BaseEmbeddings;
  rerankers : list BaseReranking;
  top_k : Z;
}.

(** The [for reranker in self.rerankers] loop; [i] is the position of
    the next reranker in the configured sequence. *)
Fixpoint apply_rerankers (rs : list BaseReranking) (i : nat)
    (text : PyVal) (result : list loc) : M (list loc) :=
  match rs with
  | [] => ret result
  | reranker :: rs' =>
      let* result' :=
        (λ m, match rr_run reranker result text m with
              | (r, m', evs) => (r, m', EvRerank i result text :: evs)
              end) in
      apply_rerankers rs' (S i) text result'
  end.

(** [if top_k is None: top_k = self.top_k] *)
Definition effective_top_k (self : t) (top_k_arg : option Z) : Z :=
  match top_k_arg with
  | None => top_k self
  | Some k => k
  end.

(** The comprehension over [zip(docs, scores)]: one new
    [RetrievedDocument] per pair. *)
Definition pair_up (docs : list Document) (scores : list float)
    : M (list loc) :=
  for_each (λ '(doc, score), new_object (RetrievedDocument_new doc score))
           (zip docs scores).

(** [if self.rerankers: for reranker in self.rerankers: ...] *)
Definition rerank (self : t) (text : PyVal) (result : list loc)
    : M (list loc) :=
  match rerankers self with
  | [] => ret result
  | rs => apply_rerankers rs 0 text result
  end.

Definition run (self : t) (text : PyVal) (top_k_arg : option Z)
    : M (list loc) :=
  let top_k := effective_top_k self top_k_arg in
  match doc_store self with
  | None =>
      raise (ValueError
        "doc_store is not provided. Please provide a doc_store to retrieve the documents")
  | Some ds =>
      let* embs := call (EvEmbedding text)
                        (emb_call (embedding self) text) in
      let* e0 := getitem embs 0 in
      let emb := DocumentWithEmbedding.embedding e0 in
      let* (_, scores, ids) :=
        call (EvVsQuery emb top_k)
             (λ _, vs_query (vector_store self) emb top_k) in
      let* docs := call (EvDsGet ids) (λ _, ds_get ds ids) in
      let* result := pair_up docs scores in
      rerank self text result
  end.

(** The same pipeline configured with other rerankers. *)
Definition with_rerankers (rs : list BaseReranking) (self : t) : t :=
  {| vector_store := vector_store self;
     doc_store := doc_store self;
     embedding := embedding self;
     rerankers := rs;
     top_k := top_k self |}.
End Defs.
End VectorRetrieval.

(** ** [knowledgehub/indices/rankings/cohere.py] *)

Module CohereReranking.
Section Defs.
Context `{Platform}.

Record t := {
  model_name : string;
  cohere_api_key : string;
  top_k : Z;
}.

(** The [for r in results] loop. *)
Fixpoint annotate (documents : list loc) (results : list RerankResult)
    (compressed_docs : list loc) : M (list loc) :=
  match results with
  | [] => ret compressed_docs
  | r :: rest =>
      let* doc := getitem documents (index r) in
      let* _ := update doc
                  (set_meta "relevance_score" (MFloat (relevance_score r))) in
      annotate documents rest (compressed_docs ++ [doc])
  end.

(** [cohere] is what [import cohere] finds: [None] when the package is
    not installed. *)
Definition run (cohere : option CohereModule) (self : t)
    (documents : list loc) (query : PyVal) : M (list loc) :=
  match cohere with
  | None =>
      raise (ImportError
        "Please install Cohere `pip install cohere` to use Cohere Reranking")
  | Some co =>
      let* cohere_client :=
        call (EvCohereClient (cohere_api_key self))
             (λ _, Client_new co (cohere_api_key self)) in
      let compressed_docs : list loc := [] in
      match documents with
      | [] => ret compressed_docs
      | _ =>
          let* _docs :=
            for_each (λ d, let* o := deref d in ret (content o)) documents in
          let* results :=
            call (EvCohereRerank (model_name self) query _docs (top_k self))
                 (λ _, Client_rerank co cohere_client (model_name self)
                         query _docs (top_k self)) in
          annotate documents results compressed_docs
      end
  end.

(** The reranker as the retrieval pipeline sees it. *)
Definition as_reranker (cohere : option CohereModule) (self : t)
    : BaseReranking :=
  {| rr_run := run cohere self |}.
End Defs.
End CohereReranking.

(** ** [knowledgehub/pipelines/indexing.py] *)

Module IndexVectorStoreFromDocumentPipeline.
Section Defs.
Context `{Platform}.

(** [doc_store] as the caller set it: [None], or a store object.  A
    pipeline whose [doc_store] was never set is not covered. *)
Record t := {
  vector_store : BaseVectorStore;
  doc_store : option BaseDocumentStore;
  embedding : BaseEmbeddings;
}.

Definition run_batch_document (self : t) (text : list loc) : M unit :=
  let* embeddings :=
    call (EvEmbedding (PList (PDoc <$> text)))
         (emb_call (embedding self) (PList (PDoc <$> text))) in
  let* ids := for_each (λ t, let* d := deref t in ret (id_ d)) text in
  let* _ := call (EvVsAdd embeddings ids)
                 (λ _, vs_add (vector_store self) embeddings ids) in
  match doc_store self with
  | Some ds =>
      let* b := truth ds in
      if b then call (EvDsAdd text) (ds_add ds text) else ret tt
  | None => ret tt
  end.

Definition run_raw (self : t) (text : string) : M unit :=
  let* u := fresh_uuid in
  let* document := new_object (Document_new text u) in
  run_batch_document self [document].

Definition run_batch_raw (self : t) (text : list string) : M unit :=
  let* documents :=
    for_each (λ t, let* u := fresh_uuid in new_object (Document_new t u))
             text in
  run_batch_document self documents.

Definition run_document (self : t) (text : loc) : M unit :=
  run_batch_document self [text].

(** [isinstance(text, Document)], or a list whose first element is one;
    [text[0]] is evaluated on every list, the empty one included. *)
Definition is_document (self : t) (text : PyVal) : Res bool :=
  match text with
  | PDoc _ => Ok true
  | PList xs =>
      match list_getitem xs 0 with
      | Some (PDoc _) => Ok true
      | Some _ => Ok false
      | None => Raise (IndexError "list index out of range")
      end
  | _ => Ok false
  end.

Definition is_batch (self : t) (text : PyVal) : bool :=
  match text with
  | PList _ => true
  | _ => false
  end.

(** The pipeline of [vectorindex.py] built on the same three parts. *)
Definition as_VectorIndexing (self : t) : VectorIndexing.t :=
  {| VectorIndexing.vector_store := vector_store self;
     VectorIndexing.doc_store := doc_store self;
     VectorIndexing.embedding := embedding self |}.


(** [path: Union[str, Path]] and the [isinstance(path, str)] test. *)
Definition to_Path (path : string + Path) : Path :=
  match path with
  | inl s => Path_of_str s
  | inr p => p
  end.

(** [self.doc_store.save] on [None]. *)
Definition NoneType_has_no (attr : string) : exn :=
  AttributeError ("'NoneType' object has no attribute '" +:+ attr +:+ "'").

Definition save (self : t) (path : string + Path)
    (vectorstore_fname docstore_fname : string) : M unit :=
  let path := to_Path path in
  let* _ := call (EvVsSave (Path_truediv path vectorstore_fname))
                 (λ _, vs_save (vector_store self)
                         (Path_truediv path vectorstore_fname)) in
  match doc_store self with
  | None => raise (NoneType_has_no "save")
  | Some ds =>
      call (EvDsSave (Path_truediv path docstore_fname))
           (λ _, ds_save ds (Path_truediv path docstore_fname))
  end.

Definition load (self : t) (path : string + Path)
    (vectorstore_fname docstore_fname : string) : M unit :=
  let path := to_Path path in
  let* _ := call (EvVsLoad (Path_truediv path vectorstore_fname))
                 (λ _, vs_load (vector_store self)
                         (Path_truediv path vectorstore_fname)) in
  match doc_store self with
  | None => raise (NoneType_has_no "load")
  | Some ds =>
      call (EvDsLoad (Path_truediv path docstore_fname))
           (λ _, ds_load ds (Path_truediv path docstore_fname))
  end.

(** The defaults of the keyword arguments. *)
Definition save_default (self : t) (path : string + Path) : M unit :=
  save self path VECTOR_STORE_FNAME DOC_STORE_FNAME.

Definition load_default (self : t) (path : string + Path) : M unit :=
  load self path VECTOR_STORE_FNAME DOC_STORE_FNAME.
End Defs.
End IndexVectorStoreFromDocumentPipeline.

(** ** [knowledgehub/indices/vectorindex.py], continued

    [VectorIndexing.to_retrieval_pipeline] and [TextVectorQA] refer to
    [VectorRetrieval] and so come after it. *)

Module ToRetrieval.
Section Defs.
Context `{Platform}.

(** The keyword arguments [VectorRetrieval] takes besides the three
    parts: each is optional, the class giving [rerankers = []] and
    [top_k = 1]. *)
Record kwargs := {
  kw_rerankers : option (list BaseReranking);
  kw_top_k : option Z;
}.

Definition no_kwargs : kwargs :=
  {| kw_rerankers := None; kw_top_k := None |}.

Definition to_retrieval_pipeline (self : VectorIndexing.t) (kw : kwargs)
    : VectorRetrieval.t :=
  {| VectorRetrieval.vector_store := VectorIndexing.vector_store self;
     VectorRetrieval.doc_store := VectorIndexing.doc_store self;
     VectorRetrieval.embedding := VectorIndexing.embedding self;
     VectorRetrieval.rerankers := default [] (kw_rerankers kw);
     VectorRetrieval.top_k := default 1%Z (kw_top_k kw) |}.
End Defs.
End ToRetrieval.

Module TextVectorQA.
Section Defs.
Context `{Platform}.

(** [retrieving_pipeline] is any retrieval, [qa_pipeline] any component
    that answers from a question and documents; [Kwargs] is what
    [run] is given besides the question and [Answer] what comes back. *)
Record t {Kwargs Answer : Type} := {
  retrieving_pipeline : PyVal → Kwargs → M (list loc);
  qa_pipeline : PyVal → list loc → Kwargs → M Answer;
}.
Arguments t : clear implicits.

Definition run {Kwargs Answer} (self : t Kwargs Answer)
    (question : PyVal) (kw : Kwargs) : M Answer :=
  let* retrieved_documents := retrieving_pipeline self question kw in
  qa_pipeline self question retrieved_documents kw.

(** A [VectorRetrieval] as the retrieving pipeline: of the keyword
    arguments it reads [top_k]. *)
Definition over {Answer} (r : VectorRetrieval.t)
    (qa : PyVal → list loc → option Z → M Answer) : t (option Z) Answer :=
  {| retrieving_pipeline := VectorRetrieval.run r;
     qa_pipeline := qa |}.
End Defs.
End TextVectorQA.

(** ** [libs/ktem/ktem/app.py]: the registry of public events

    [BaseApp._events] maps the name of an event to the list of the
    definitions subscribed to it.  The lists are objects: [get_event]
    hands out the list itself, and [subscribe_event] appends to it in
    place. *)
Module BaseApp.
Section Defs.
(** What a subscriber registers (a [dict] in the source). *)
Context {HookDef : Type}.

Inductive error :=
| HookAlreadyDeclared (msg : string)
| HookNotDeclared (msg : string).

Record t := mk {
  _events : gmap string loc;
  lists : gmap loc (list HookDef);
}.

(** [self._events = {}] in [__init__]. *)
Definition init : t := mk ∅ ∅.

(** A method returns or raises, and leaves the application in some
    state either way. *)
Definition App (A : Type) : Type := t → (error + A) * t.

Definition declare_event (name : string) : App unit := λ self,
  match _events self !! name with
  | Some _ =>
      (inl (HookAlreadyDeclared ("Hook " +:+ name +:+ " is already declared")),
       self)
  | None =>
      let l := fresh (dom (lists self)) in
      (inr tt, mk (<[name := l]> (_events self)) (<[l := []]> (lists self)))
  end.

(** [self._events[name].append(definition)]: the list of a declared
    event is there to be appended to ([registry_ok] below says so of
    every state the methods reach). *)
Definition subscribe_event (name : string) (definition : HookDef)
    : App unit := λ self,
  match _events self !! name with
  | None =>
      (inl (HookNotDeclared ("Hook " +:+ name +:+ " is not declared")), self)
  | Some l =>
      (inr tt, mk (_events self) (alter (λ ds, ds ++ [definition]) l (lists self)))
  end.

Definition get_event (name : string) : App loc := λ self,
  match _events self !! name with
  | None =>
      (inl (HookNotDeclared ("Hook " +:+ name +:+ " is not declared")), self)
  | Some l => (inr l, self)
  end.

(** What is read through a reference to a list. *)
Definition read (self : t) (l : loc) : option (list HookDef) :=
  lists self !! l.

(** The definitions subscribed to an event, if it is declared. *)
Definition subscribers (self : t) (name : string) : option (list HookDef) :=
  _events self !! name ≫= read self.

(** A [for] loop over a list, stopping at the first exception. *)
Fixpoint for_all {A} (f : A → App unit) (xs : list A) : App unit :=
  λ self,
  match xs with
  | [] => (inr tt, self)
  | x :: xs' =>
      match f x self with
      | (inr _, self') => for_all f xs' self'
      | (inl e, self') => (inl e, self')
      end
  end.
End Defs.
Arguments t : clear implicits.
Arguments error : clear implicits.
End BaseApp.

(** A page and the pages among its attributes, in the order of
    [self.__dict__]; the pages form a tree. *)
Module BasePage.
#[warnings="-register-all"]
Inductive t := Page (public_events : list string) (pages : list t).

Definition public_events (p : t) : list string :=
  match p with Page evs _ => evs end.

Definition pages (p : t) : list t :=
  match p with Page _ ps => ps end.

Section Defs.
Context {HookDef : Type}.

(** [declare_public_events]: the page's own events first, then those of
    the pages below it, all in the registry of the one application the
    pages belong to. *)
Fixpoint declare_public_events (p : t) : BaseApp.App (HookDef := HookDef) unit :=
  λ app,
  match p with
  | Page evs ps =>
      match BaseApp.for_all BaseApp.declare_event evs app with
      | (inr _, app') => BaseApp.for_all declare_public_events ps app'
      | (inl e, app') => (inl e, app')
      end
  end.
End Defs.

(** The events of a page and of the pages below it, in the order in
    which [declare_public_events] meets them. *)
Fixpoint all_events (p : t) : list string :=
  match p with
  | Page evs ps => evs ++ concat (map all_events ps)
  end.
End BasePage.


(** ** A test bench

    A small concrete deployment on which the statements below are run:
    integers stand in for floats, the vector store ranks by dot product,
    the document store is an association list that skips unknown ids, the
    identifier source counts up, and paths are strings. *)
Module Bench.
Record world := mkWorld {
  vectors : list (string * list Z);
  documents : list (string * string);
  next_uuid : nat;
  disk : list string;
  rerank_calls : nat;
}.

Definition w0 : world := mkWorld [] [] 0 [] 0.

#[local] Instance platform : Platform := {|
  float := Z;
  World := world;
  Path := string;
  Path_of_str := λ s, s;
  Path_truediv := λ p f, p +:+ "/" +:+ f;
  uuid4 := λ w,
    ("uuid-" +:+ pretty (next_uuid w),
     mkWorld (vectors w) (documents w) (S (next_uuid w)) (disk w)
             (rerank_calls w));
|}.

Definition embed_text (s : string) : DocumentWithEmbedding :=
  DocumentWithEmbedding.mk
    (if String.eqb s "cat" then [1; 0]
     else if String.eqb s "dog" then [0; 1] else [0; 0])%Z.

Definition embed_doc (h : gmap loc Document) (v : PyVal)
    : list DocumentWithEmbedding :=
  match v with
  | PStr s => [embed_text s]
  | PDoc l => match h !! l with
              | Some d => [embed_text (text d)]
              | None => []
              end
  | _ => []
  end.

Definition embed (v : PyVal) (h : gmap loc Document) (w : world)
    : Res (list DocumentWithEmbedding) * world :=
  match v with
  | PList xs => (Ok (xs ≫= embed_doc h), w)
  | _ => (Ok (embed_doc h v), w)
  end.

Definition embeddings : BaseEmbeddings := {| emb_call := embed |}.

Fixpoint dot (a b : list Z) : Z :=
  match a, b with
  | x :: a', y :: b' => x * y + dot a' b'
  | _, _ => 0
  end%Z.

Fixpoint insert_desc (x : Z * string) (l : list (Z * string))
    : list (Z * string) :=
  match l with
  | [] => [x]
  | y :: l' => if (x.1 <=? y.1)%Z then y :: insert_desc x l' else x :: l
  end.

Definition ranked (q : list Z) (vs : list (string * list Z))
    : list (Z * string) :=
  foldr insert_desc [] ((λ '(i, v), (dot q v, i)) <$> vs).

Definition save_to (p : string) (w : world) : Res unit * world :=
  (Ok tt, mkWorld (vectors w) (documents w) (next_uuid w)
                  (disk w ++ [p]) (rerank_calls w)).

Definition add_vectors (es : list DocumentWithEmbedding)
    (ids : list string) (w : world) : Res unit * world :=
  (Ok tt, mkWorld (vectors w ++ zip ids (DocumentWithEmbedding.embedding <$> es))
                  (documents w) (next_uuid w) (disk w) (rerank_calls w)).

Definition nearest (q : list Z) (k : Z) (w : world)
    : Res (list (list Z) * list Z * list string) * world :=
  let top := take (Z.to_nat k) (ranked q (vectors w)) in
  (Ok ((λ _, q) <$> top, fst <$> top, snd <$> top), w).

Definition vstore : BaseVectorStore := {|
  vs_add := add_vectors;
  vs_query := nearest;
  vs_save := save_to;
  vs_load := λ _ w, (Ok tt, w);
|}.

Definition find_doc (ds : list (string * string)) (i : string)
    : list Document :=
  match list_find (λ p, p.1 = i) ds with
  | Some (_, (_, t)) => [Document_new t i]
  | None => []
  end.

Definition add_documents (ls : list loc) (h : gmap loc Document)
    (w : world) : Res unit * world :=
  (Ok tt, mkWorld (vectors w)
            (documents w ++
               omap (λ l, (λ d, (id_ d, text d)) <$> h !! l) ls)
            (next_uuid w) (disk w) (rerank_calls w)).

Definition get_documents (ids : list string) (w : world)
    : Res (list Document) * world :=
  (Ok (ids ≫= find_doc (documents w)), w).

Definition dstore : BaseDocumentStore := {|
  ds_bool := λ _, true;
  ds_add := add_documents;
  ds_get := get_documents;
  ds_save := save_to;
  ds_load := λ _ w, (Ok tt, w);
|}.

(** A stand-in for the [cohere] package: the service ranks the last
    document first. *)
Definition rank_backwards (n : nat) : list RerankResult :=
  (λ i, mkRerankResult (Z.of_nat i) (Z.of_nat (10 * S i))) <$> reverse (seq 0 n).

Definition rank (docs : list string) (top_n : Z) (w : world)
    : Res (list RerankResult) * world :=
  (Ok (take (Z.to_nat top_n) (rank_backwards (length docs))),
   mkWorld (vectors w) (documents w) (next_uuid w) (disk w)
           (S (rerank_calls w))).

Definition cohere : CohereModule := {|
  Client := string;
  Client_new := λ key w, (Ok key, w);
  Client_rerank := λ _ _ _, rank;
|}.

Definition reranker (n : Z) : CohereReranking.t :=
  {| CohereReranking.model_name := "rerank-multilingual-v2.0";
     CohereReranking.cohere_api_key := "";
     CohereReranking.top_k := n |}.

Definition indexing : VectorIndexing.t :=
  {| VectorIndexing.vector_store := vstore;
     VectorIndexing.doc_store := Some dstore;
     VectorIndexing.embedding := embeddings |}.

Definition retrieval (rs : list BaseReranking) (k : Z)
    : VectorRetrieval.t :=
  {| VectorRetrieval.vector_store := vstore;
     VectorRetrieval.doc_store := Some dstore;
     VectorRetrieval.embedding := embeddings;
     VectorRetrieval.rerankers := rs;
     VectorRetrieval.top_k := k |}.

Definition retrieval_without_doc_store : VectorRetrieval.t :=
  {| VectorRetrieval.vector_store := vstore;
     VectorRetrieval.doc_store := None;
     VectorRetrieval.embedding := embeddings;
     VectorRetrieval.rerankers := [];
     VectorRetrieval.top_k := 1 |}.

Definition pipeline (ds : option BaseDocumentStore)
    : IndexVectorStoreFromDocumentPipeline.t :=
  {| IndexVectorStoreFromDocumentPipeline.vector_store := vstore;
     IndexVectorStoreFromDocumentPipeline.doc_store := ds;
     IndexVectorStoreFromDocumentPipeline.embedding := embeddings |}.

Definition m0 : Mem := mkMem ∅ w0.

(** The scenario of the specification: documents [a] "cat" and [b]
    "dog", already created by the caller. *)
Definition cat : Document := Document_new "cat" "a".
Definition dog : Document := Document_new "dog" "b".
Definition m_cat_dog : Mem := mkMem (<[2%positive := dog]> {[1%positive := cat]}) w0.

(** A vector store that knows an id the document store does not. *)
Definition m_orphan : Mem :=
  mkMem ∅ (mkWorld [("a", [1; 0]); ("ghost", [1; 1]); ("b", [0; 1])]%Z
                   [("a", "cat"); ("b", "dog")] 0 [] 0).

(** The state after indexing both. *)
Definition m_indexed : Mem :=
  (VectorIndexing.run indexing (PList [PDoc 1%positive; PDoc 2%positive])
     m_cat_dog).1.2.

(** A document store that is down, and a ranking service that counts
    the documents from 1. *)
Definition refuse {A} (w : world) : Res A * world :=
  (Raise (Foreign "document store is down"), w).

Definition refuse_add (ls : list loc) (h : gmap loc Document) (w : world)
    : Res unit * world := refuse w.

Definition refuse_get (ids : list string) (w : world)
    : Res (list Document) * world := refuse w.

Definition dstore_down : BaseDocumentStore := {|
  ds_bool := λ _, true;
  ds_add := refuse_add;
  ds_get := refuse_get;
  ds_save := save_to;
  ds_load := λ _ w, (Ok tt, w);
|}.

Definition rank_from_one (docs : list string) (top_n : Z) (w : world)
    : Res (list RerankResult) * world :=
  (Ok ((λ i, mkRerankResult (Z.of_nat (S i)) (Z.of_nat (10 * S i)))
         <$> seq 0 (length docs)),
   mkWorld (vectors w) (documents w) (next_uuid w) (disk w)
           (S (rerank_calls w))).

Definition cohere_from_one : CohereModule := {|
  Client := string;
  Client_new := λ key w, (Ok key, w);
  Client_rerank := λ _ _ _, rank_from_one;
|}.

Definition indexing_with (ds : option BaseDocumentStore) : VectorIndexing.t :=
  {| VectorIndexing.vector_store := vstore;
     VectorIndexing.doc_store := ds;
     VectorIndexing.embedding := embeddings |}.

Definition retrieval_with (ds : BaseDocumentStore) : VectorRetrieval.t :=
  {| VectorRetrieval.vector_store := vstore;
     VectorRetrieval.doc_store := Some ds;
     VectorRetrieval.embedding := embeddings;
     VectorRetrieval.rerankers := [];
     VectorRetrieval.top_k := 1 |}.

(** A document store whose class defines [__len__] as the number of
    documents it holds: false in a boolean test while it is empty. *)
Definition dstore_sized : BaseDocumentStore := {|
  ds_bool := λ w, match documents w with [] => false | _ => true end;
  ds_add := add_documents;
  ds_get := get_documents;
  ds_save := save_to;
  ds_load := λ _ w, (Ok tt, w);
|}.

(** An embedding model that answers any request with one embedding. *)
Definition embed_once (v : PyVal) (h : gmap loc Document) (w : world)
    : Res (list DocumentWithEmbedding) * world :=
  (Ok [DocumentWithEmbedding.mk [1; 0]%Z], w).

Definition indexing_embedding_once : VectorIndexing.t :=
  {| VectorIndexing.vector_store := vstore;
     VectorIndexing.doc_store := Some dstore;
     VectorIndexing.embedding := {| emb_call := embed_once |} |}.

(** A [cohere] package whose client cannot be built. *)
Definition cohere_bad_key : CohereModule := {|
  Client := string;
  Client_new := λ key w, (Raise (Foreign "invalid api token"), w);
  Client_rerank := λ _ _ _, rank;
|}.

(** A question-answering step that answers with the number of documents
    it was given. *)
Definition count_documents (question : PyVal) (docs : list loc)
    (kw : option Z) : M nat :=
  ret (length docs).
End Bench.


(** ** Vocabulary of the statements *)
Section Vocabulary.
Context `{Platform}.

(** [d'] is [d] but for the entry [metadata["relevance_score"]]. *)
Definition same_but_relevance (d d' : Document) : Prop :=
  id_ d' = id_ d
  ∧ text d' = text d
  ∧ score d' = score d
  ∧ delete "relevance_score" (metadata d')
    = delete "relevance_score" (metadata d).

(** [str] or [Document]: what indexing accepts as an item. *)
Definition accepted (v : PyVal) : bool :=
  match v with
  | PStr _ | PDoc _ => true
  | _ => false
  end.

(** How an accepted item shows up in [input_]: a [Document] as
    itself, a string as a reference to an object that did not exist
    before ([h]) and is afterwards ([h1]) a document with that text,
    no metadata and no score. *)
Definition wrapped (h h1 : gmap loc Document) (item : PyVal) (l : loc)
    : Prop :=
  match item with
  | PStr s => h !! l = None ∧ ∃ u, h1 !! l = Some (Document_new s u)
  | PDoc d => l = d
  | _ => False
  end.

(** The store that [if self.doc_store: self.doc_store.add(...)] writes
    to in the world [w]: the configured one when it is true in a
    boolean test, none otherwise. *)
Definition store_in_use (doc_store : option BaseDocumentStore) (w : World)
    : option BaseDocumentStore :=
  match doc_store with
  | Some ds => if ds_bool ds w then Some ds else None
  | None => None
  end.

(** The input as a list: the elements of a list, any other input as
    the one item. *)
Definition items_of (text : PyVal) : list PyVal :=
  match text with
  | PList xs => xs
  | PStr _ | PDoc _ | PObj _ => [text]
  end.

(** The references that stand for the string items. *)
Fixpoint created (items : list PyVal) (ls : list loc) : list loc :=
  match items, ls with
  | PStr _ :: items', l :: ls' => l :: created items' ls'
  | _ :: items', _ :: ls' => created items' ls'
  | _, _ => []
  end.
End Vocabulary.

(** ** Vocabulary of the statements about the application *)
Section AppVocabulary.
Context {HookDef : Type}.

(** Every declared event has its list, and no two events share one. *)
Definition registry_ok (self : BaseApp.t HookDef) : Prop :=
  (∀ name l, BaseApp._events self !! name = Some l →
             is_Some (BaseApp.lists self !! l))
  ∧ (∀ n1 n2 l, BaseApp._events self !! n1 = Some l →
                BaseApp._events self !! n2 = Some l → n1 = n2).

(** A call to one of the three methods of the registry. *)
Inductive registry_call :=
| DeclareEvent (name : string)
| SubscribeEvent (name : string) (definition : HookDef)
| GetEvent (name : string).

(** The state a call leaves behind, whether it returned or raised. *)
Definition after_call (c : registry_call) (self : BaseApp.t HookDef)
    : BaseApp.t HookDef :=
  match c with
  | DeclareEvent name => (BaseApp.declare_event name self).2
  | SubscribeEvent name d => (BaseApp.subscribe_event name d self).2
  | GetEvent name => (BaseApp.get_event name self).2
  end.

Definition after_calls (cs : list registry_call) (self : BaseApp.t HookDef)
    : BaseApp.t HookDef :=
  foldl (λ s c, after_call c s) self cs.
End AppVocabulary.
Arguments registry_call : clear implicits.


(** A registry whose subscribers are named by strings, with the event
    [onSave] declared and [audit] subscribed to it, and two trees of
    pages. *)
Module BenchApp.
Definition app0 : BaseApp.t string := BaseApp.init.

Definition app1 : BaseApp.t string :=
  after_calls [DeclareEvent "onSave"; SubscribeEvent "onSave" "audit"] app0.

Definition site : BasePage.t :=
  BasePage.Page ["onLoad"]
    [BasePage.Page ["onChat"; "onReset"] []; BasePage.Page ["onUpload"] []].

Definition site_with_clash : BasePage.t :=
  BasePage.Page ["onLoad"]
    [BasePage.Page ["onChat"] []; BasePage.Page ["onLoad"; "onUpload"] []].
End BenchApp.

(** ** Vocabulary of the statements about chains of rerankers *)
Section RerankVocabulary.
Context `{Platform}.

(** A reranker that is a [CohereReranking], whatever its settings and
    whether or not the [cohere] package is there. *)
Definition is_cohere (R : BaseReranking) : Prop :=
  ∃ cohere self, rr_run R = CohereReranking.run cohere self.
End RerankVocabulary.


(* ===================================================================== *)
(** * Part II: what the program does *)
(* ===================================================================== *)

(** ** Sequencing, calls and allocation *)
Section RuntimeFacts.
Context `{Platform}.

Lemma bind_Ok {A B} (c : M A) (k : A → M B) m a m1 ev1 :
  c m = (Ok a, m1, ev1) →
  bind c k m = (let '(r, m2, ev2) := k a m1 in (r, m2, ev1 ++ ev2)).
Proof. unfold bind. by intros ->. Qed.

Lemma bind_Raise {A B} (c : M A) (k : A → M B) m e m1 ev1 :
  c m = (Raise e, m1, ev1) →
  bind c k m = (Raise e, m1, ev1).
Proof. unfold bind. by intros ->. Qed.

Lemma bind_ret_l {A B} (a : A) (k : A → M B) m :
  bind (ret a) k m = k a m.
Proof. unfold bind, ret. by destruct (k a m) as [[??]?]. Qed.

Lemma bind_ret_r {A} (c : M A) m :
  bind c ret m = c m.
Proof.
  unfold bind, ret. destruct (c m) as [[[a|e] m1] ev1]; [|done].
  by rewrite app_nil_r.
Qed.

Lemma bind_assoc {A B C} (c : M A) (f : A → M B) (g : B → M C) m :
  bind (bind c f) g m = bind c (λ a, bind (f a) g) m.
Proof.
  unfold bind. destruct (c m) as [[[a|e] m1] ev1]; [|done].
  destruct (f a m1) as [[[b|e] m2] ev2]; [|done].
  destruct (g b m2) as [[r m3] ev3]. by rewrite app_assoc.
Qed.

Lemma bind_ext {A B} (c : M A) (f g : A → M B) m :
  (∀ a m', f a m' = g a m') → bind c f m = bind c g m.
Proof.
  intros Hfg. unfold bind. destruct (c m) as [[[a|e] m1] ev1]; [|done].
  by rewrite Hfg.
Qed.

Lemma for_each_ext {A B} (f g : A → M B) l m :
  (∀ a m', f a m' = g a m') → for_each f l m = for_each g l m.
Proof.
  intros Hfg. revert m. induction l as [|a l IH]; intros m; [done|].
  simpl. unfold bind at 1 3. rewrite Hfg.
  destruct (g a m) as [[[b|e] m1] ev1]; [|done].
  unfold bind. by rewrite IH.
Qed.

Lemma calls_app p (e1 e2 : list Event) :
  calls p (e1 ++ e2) = calls p e1 + calls p e2.
Proof. unfold calls. by rewrite List.filter_app, length_app. Qed.

Lemma deref_Some l d m :
  heap m !! l = Some d → deref l m = (Ok d, m, []).
Proof. unfold deref. by intros ->. Qed.

(** Reading an attribute of documents that exist changes nothing. *)
Lemma read_all {B} (g : Document → B) (ls : list loc) (bs : list B) m :
  Forall2 (λ l b, g <$> heap m !! l = Some b) ls bs →
  for_each (λ l, let* d := deref l in ret (g d)) ls m = (Ok bs, m, []).
Proof.
  induction 1 as [|l b ls bs Hl _ IH]; [done|].
  destruct (heap m !! l) as [d|] eqn:Hd; [|done].
  injection Hl as <-.
  simpl. erewrite bind_Ok; last first.
  { erewrite bind_Ok; [|by apply deref_Some]. done. }
  simpl. by erewrite bind_Ok by exact IH.
Qed.

Lemma list_getitem_elem_of {A} (l : list A) i x :
  list_getitem l i = Some x → x ∈ l.
Proof.
  unfold list_getitem. repeat case_match; try done;
    apply list_elem_of_lookup_2.
Qed.

(** A comprehension that creates one object per element returns as
    many new, pairwise distinct references, each to the object built
    for its position, and leaves every older object as it was. *)
Lemma new_objects {A} (g : A → Document) (xs : list A) m :
  ∃ ls h',
    for_each (λ x, new_object (g x)) xs m = (Ok ls, mkMem h' (world m), [])
    ∧ heap m ⊆ h'
    ∧ NoDup ls
    ∧ (∀ l, l ∈ ls → heap m !! l = None)
    ∧ Forall2 (λ l x, h' !! l = Some (g x)) ls xs.
Proof.
  revert m. induction xs as [|x xs IH]; intros m.
  - exists [], (heap m). destruct m. simpl. unfold ret.
    split_and!; try done; [constructor | by intros ? ?%elem_of_nil].
  - set (l := fresh (dom (heap m))).
    assert (Hl : heap m !! l = None).
    { apply not_elem_of_dom, is_fresh. }
    destruct (IH (mkMem (<[l := g x]> (heap m)) (world m)))
      as (ls & h' & Hrun & Hsub & Hnd & Hfresh & Hget).
    simpl in *. exists (l :: ls), h'.
    assert (Hl' : h' !! l = Some (g x)).
    { eapply lookup_weaken; [|done]. by rewrite lookup_insert_eq. }
    split_and!.
    + unfold bind at 1, new_object at 1. fold l. unfold bind.
      rewrite Hrun. done.
    + etrans; [|done]. by apply insert_subseteq.
    + constructor; [|done]. intros Hin. apply Hfresh in Hin.
      by rewrite lookup_insert_eq in Hin.
    + intros l' [->|Hin]%elem_of_cons; [done|].
      apply Hfresh in Hin. apply lookup_insert_None in Hin. tauto.
    + by constructor.
Qed.

Lemma call_Ok {A} ev (f : gmap loc Document → World → Res A * World)
    m a w :
  f (heap m) (world m) = (Ok a, w) →
  call ev f m = (Ok a, mkMem (heap m) w, [ev]).
Proof. unfold call. by intros ->. Qed.

Lemma call_Raise {A} ev (f : gmap loc Document → World → Res A * World)
    m e w :
  f (heap m) (world m) = (Raise e, w) →
  call ev f m = (Raise e, mkMem (heap m) w, [ev]).
Proof. unfold call. by intros ->. Qed.
End RuntimeFacts.

(** ** Retrieval *)
Section RetrievalFacts.
Context `{Platform}.
Import VectorRetrieval.

(** One step of symbolic execution: a call that returned. *)
Local Ltac called Hcall :=
  erewrite bind_Ok by (apply call_Ok; exact Hcall); simpl.

(** The hydration stage creates one retrieved document per
    (document, score) pair and touches nothing else. *)
Lemma pair_up_spec (docs : list Document) (scores : list float) m :
  ∃ ls h',
    pair_up docs scores m = (Ok ls, mkMem h' (world m), [])
    ∧ heap m ⊆ h'
    ∧ NoDup ls
    ∧ (∀ l, l ∈ ls → heap m !! l = None)
    ∧ Forall2 (λ l '(doc, score),
                 h' !! l = Some (RetrievedDocument_new doc score))
              ls (zip docs scores).
Proof.
  destruct (new_objects (λ p, RetrievedDocument_new p.1 p.2)
              (zip docs scores) m)
    as (ls & h' & Hrun & Hsub & Hnd & Hfresh & Hget).
  exists ls, h'. split_and!; try done.
  - rewrite <- Hrun. unfold pair_up. apply for_each_ext. by intros [??] ?.
  - eapply Forall2_impl; [done|]. by intros ? [??].
Qed.

(** The run up to the document-store fetch, when each collaborator
    returns. *)
Lemma run_steps self text k_arg m ds embs e0 w1 p scores ids w2 docs w3 :
  doc_store self = Some ds →
  emb_call (embedding self) text (heap m) (world m) = (Ok embs, w1) →
  list_getitem embs 0 = Some e0 →
  vs_query (vector_store self) (DocumentWithEmbedding.embedding e0)
           (effective_top_k self k_arg) w1 = (Ok (p, scores, ids), w2) →
  ds_get ds ids w2 = (Ok docs, w3) →
  run self text k_arg m =
    (let '(r, m', evs) :=
       bind (pair_up docs scores) (rerank self text) (mkMem (heap m) w3) in
     (r, m', EvEmbedding text
             :: EvVsQuery (DocumentWithEmbedding.embedding e0)
                          (effective_top_k self k_arg)
             :: EvDsGet ids :: evs)).
Proof.
  intros Hds Hemb He0 Hq Hget. unfold run. rewrite Hds.
  called Hemb. unfold getitem. rewrite He0, bind_ret_l.
  called Hq. called Hget.
  by destruct (bind _ _ _) as [[??]?].
Qed.

(** Reranking is a stage of its own, run on what the pipeline without
    rerankers returns. *)
Lemma run_split self text k_arg m :
  run self text k_arg m =
    bind (run (with_rerankers [] self) text k_arg) (rerank self text) m.
Proof.
  unfold run. simpl. destruct (doc_store self) as [ds|]; [|done].
  change (effective_top_k (with_rerankers [] self) k_arg)
    with (effective_top_k self k_arg).
  rewrite bind_assoc. apply bind_ext; intros embs m1.
  rewrite bind_assoc. apply bind_ext; intros e0 m2.
  rewrite bind_assoc. apply bind_ext; intros [[? scores] ids] m3.
  rewrite bind_assoc. apply bind_ext; intros docs m4.
  rewrite bind_assoc. apply bind_ext; intros result m5.
  unfold rerank at 2. simpl. by rewrite bind_ret_l.
Qed.

(** Rerankers that answer an empty list with an empty list leave the
    empty list empty. *)
Lemma rerank_empty self text m :
  Forall (λ R, ∀ m0, ∃ m' evs, rr_run R [] text m0 = (Ok [], m', evs))
         (rerankers self) →
  ∃ m' evs, rerank self text [] m = (Ok [], m', evs).
Proof.
  intros Hrs.
  assert (Hloop : ∀ i m0, ∃ m' evs,
            apply_rerankers (rerankers self) i text [] m0 = (Ok [], m', evs)).
  { induction Hrs as [|R rs HR _ IH]; intros i m0; [by do 2 eexists|].
    destruct (HR m0) as (m1 & evs1 & H1).
    destruct (IH (S i) m1) as (m2 & evs2 & H2).
    simpl. unfold bind. rewrite H1, H2. by eauto. }
  unfold rerank. destruct (rerankers self); [by do 2 eexists|]. apply Hloop.
Qed.

(** C4.  A retrieval call on a pipeline without a document store
    raises the [ValueError] that reports the missing [doc_store]; it
    does so before the embedding model or the vector store is called
    (no event is emitted) and leaves memory and the outside world as
    they were. *)
Theorem retrieval_needs_doc_store self text k_arg m :
  doc_store self = None →
  run self text k_arg m =
    (Raise (ValueError
       "doc_store is not provided. Please provide a doc_store to retrieve the documents"),
     m, []).
Proof. intros Hds. unfold run. by rewrite Hds. Qed.

(** C5.  With rerankers [R1] then [R2] configured, the result of a
    retrieval is [R2] applied to what [R1] returns on the initial
    candidates, both with the original query: if the pipeline without
    rerankers yields [initial], [R1] maps it to [r1] and [R2] maps [r1]
    to [r2], then the pipeline returns [r2], having called [R1] on
    [initial] first and [R2] on [r1] second.  This holds for every
    candidate list, the non-empty ones included. *)
Theorem rerankers_chain self R1 R2 text k_arg m
    initial m1 ev1 r1 m2 ev2 r2 m3 ev3 :
  rerankers self = [R1; R2] →
  run (with_rerankers [] self) text k_arg m = (Ok initial, m1, ev1) →
  rr_run R1 initial text m1 = (Ok r1, m2, ev2) →
  rr_run R2 r1 text m2 = (Ok r2, m3, ev3) →
  run self text k_arg m =
    (Ok r2, m3,
     ev1 ++ EvRerank 0 initial text :: ev2 ++ EvRerank 1 r1 text :: ev3).
Proof.
  intros Hrs Hinit H1 H2. rewrite run_split.
  erewrite bind_Ok by exact Hinit.
  unfold rerank. rewrite Hrs. simpl. unfold bind, ret.
  rewrite H1, H2. simpl. by rewrite app_nil_r.
Qed.

(** C8.  When the document store hands back fewer documents than the
    ids it was asked for, the pipeline raises nothing: the candidates
    are the positional zip of the returned documents with the scores,
    [min (number of documents) (number of scores)] of them, the i-th
    being a new retrieved document with the fields of the i-th returned
    document and the i-th score, whichever id went missing.  The
    rerankers then run on these candidates; with none configured they
    are the result. *)
Theorem short_fetch_is_zipped self text k_arg m
    ds embs e0 w1 p scores ids w2 docs w3 :
  doc_store self = Some ds →
  emb_call (embedding self) text (heap m) (world m) = (Ok embs, w1) →
  list_getitem embs 0 = Some e0 →
  vs_query (vector_store self) (DocumentWithEmbedding.embedding e0)
           (effective_top_k self k_arg) w1 = (Ok (p, scores, ids), w2) →
  ds_get ds ids w2 = (Ok docs, w3) →
  length docs < length ids →
  ∃ result h',
    length result = length docs `min` length scores
    ∧ Forall2 (λ l '(doc, score),
                 h' !! l = Some (RetrievedDocument_new doc score))
              result (zip docs scores)
    ∧ heap m ⊆ h'
    ∧ run self text k_arg m =
        (let '(r, m', evs) := rerank self text result (mkMem h' w3) in
         (r, m', EvEmbedding text
                 :: EvVsQuery (DocumentWithEmbedding.embedding e0)
                              (effective_top_k self k_arg)
                 :: EvDsGet ids :: evs))
    ∧ (rerankers self = [] →
       run self text k_arg m =
         (Ok result, mkMem h' w3,
          [EvEmbedding text;
           EvVsQuery (DocumentWithEmbedding.embedding e0)
                     (effective_top_k self k_arg);
           EvDsGet ids])).
Proof.
  intros Hds Hemb He0 Hq Hget _.
  destruct (pair_up_spec docs scores (mkMem (heap m) w3))
    as (result & h' & Hpair & Hsub & _ & _ & Hzip).
  assert (Hrun := run_steps _ _ _ _ _ _ _ _ _ _ _ _ _ _
                    Hds Hemb He0 Hq Hget).
  erewrite bind_Ok in Hrun by exact Hpair. simpl in Hrun.
  exists result, h'. split_and!; try done.
  - apply Forall2_length in Hzip. by rewrite Hzip, length_zip_with.
  - rewrite Hrun. by destruct (rerank _ _ _ _) as [[??]?].
  - intros Hrs. rewrite Hrun. unfold rerank. by rewrite Hrs.
Qed.

(** C2, as the code has it.  When the vector store returns no
    candidate (no id and no score), the pipeline raises nothing of its
    own and the candidate list is empty, but the document store is
    still asked once, for the empty list of ids, and the configured
    rerankers are still run, the first of them on the empty list.
    With no reranker configured, or with rerankers that return the
    empty list on the empty list, the result is the empty sequence. *)
Theorem no_candidates self text k_arg m ds embs e0 w1 p w2 docs w3 :
  doc_store self = Some ds →
  emb_call (embedding self) text (heap m) (world m) = (Ok embs, w1) →
  list_getitem embs 0 = Some e0 →
  vs_query (vector_store self) (DocumentWithEmbedding.embedding e0)
           (effective_top_k self k_arg) w1 = (Ok (p, [], []), w2) →
  ds_get ds [] w2 = (Ok docs, w3) →
  let before_reranking :=
    [EvEmbedding text;
     EvVsQuery (DocumentWithEmbedding.embedding e0)
               (effective_top_k self k_arg);
     EvDsGet []] in
  run self text k_arg m =
    (let '(r, m', evs) := rerank self text [] (mkMem (heap m) w3) in
     (r, m', before_reranking ++ evs))
  ∧ (rerankers self = [] →
     run self text k_arg m = (Ok [], mkMem (heap m) w3, before_reranking))
  ∧ (∀ R rs, rerankers self = R :: rs →
     ∃ r m' evs,
       run self text k_arg m =
         (r, m', before_reranking ++ EvRerank 0 [] text :: evs))
  ∧ (Forall (λ R, ∀ m0, ∃ m' evs, rr_run R [] text m0 = (Ok [], m', evs))
            (rerankers self) →
     ∃ m' evs, run self text k_arg m = (Ok [], m', before_reranking ++ evs)).
Proof.
  intros Hds Hemb He0 Hq Hget before_reranking.
  assert (Hrun := run_steps _ _ _ _ _ _ _ _ _ _ _ _ _ _
                    Hds Hemb He0 Hq Hget).
  assert (Hpair : pair_up docs [] (mkMem (heap m) w3)
                  = (Ok [], mkMem (heap m) w3, [])).
  { unfold pair_up. by destruct docs. }
  erewrite bind_Ok in Hrun by exact Hpair. simpl in Hrun.
  split_and!.
  - rewrite Hrun. by destruct (rerank _ _ _ _) as [[??]?].
  - intros Hrs. rewrite Hrun. unfold rerank. by rewrite Hrs.
  - intros R rs Hrs. rewrite Hrun. unfold rerank. rewrite Hrs. simpl.
    unfold bind.
    destruct (rr_run R [] text _) as [[[r1|e] m1] evs1]; [|by eauto].
    destruct (apply_rerankers rs 1 text r1 m1) as [[r m'] evs].
    by eauto.
  - intros Hrs. rewrite Hrun.
    destruct (rerank_empty self text (mkMem (heap m) w3) Hrs)
      as (m' & evs & ->).
    by eauto.
Qed.

(** C3, as the code has it.  A call without [top_k] is the call with
    the pipeline's configured [top_k].  The effective value [k] is
    handed to the vector store's query as it is and is not checked:
    whatever its sign, once the query is embedded the vector store is
    queried for [k] neighbours, and the call ends as the vector store,
    the document store and the rerankers make it end.  It raises what
    the query or the fetch raised; when both return it is the run of
    the rerankers on the paired-up candidates; and with no reranker it
    returns these. *)
Theorem top_k_defaults_and_is_not_checked self text k_arg m :
  run self text None m = run self text (Some (top_k self)) m
  ∧ effective_top_k self k_arg = default (top_k self) k_arg
  ∧ ∀ ds embs e0 w1,
      doc_store self = Some ds →
      emb_call (embedding self) text (heap m) (world m) = (Ok embs, w1) →
      list_getitem embs 0 = Some e0 →
      let k := default (top_k self) k_arg in
      let asked :=
        [EvEmbedding text;
         EvVsQuery (DocumentWithEmbedding.embedding e0) k] in
      (∀ e w2,
         vs_query (vector_store self) (DocumentWithEmbedding.embedding e0)
                  k w1 = (Raise e, w2) →
         run self text k_arg m = (Raise e, mkMem (heap m) w2, asked))
      ∧ (∀ p scores ids w2 e w3,
           vs_query (vector_store self) (DocumentWithEmbedding.embedding e0)
                    k w1 = (Ok (p, scores, ids), w2) →
           ds_get ds ids w2 = (Raise e, w3) →
           run self text k_arg m
           = (Raise e, mkMem (heap m) w3, asked ++ [EvDsGet ids]))
      ∧ (∀ p scores ids w2 docs w3,
           vs_query (vector_store self) (DocumentWithEmbedding.embedding e0)
                    k w1 = (Ok (p, scores, ids), w2) →
           ds_get ds ids w2 = (Ok docs, w3) →
           ∃ result h',
             pair_up docs scores (mkMem (heap m) w3)
             = (Ok result, mkMem h' w3, [])
             ∧ run self text k_arg m
               = (let '(r, m', evs) :=
                    rerank self text result (mkMem h' w3) in
                  (r, m', asked ++ EvDsGet ids :: evs))
             ∧ (rerankers self = [] →
                run self text k_arg m
                = (Ok result, mkMem h' w3, asked ++ [EvDsGet ids]))).
Proof.
  assert (Hk : effective_top_k self k_arg = default (top_k self) k_arg).
  { by destruct k_arg. }
  split_and!; [done..|].
  intros ds embs e0 w1 Hds Hemb He0 k asked. split_and!.
  - intros e w2 Hq. unfold run. rewrite Hds, Hk. fold k.
    called Hemb. unfold getitem. rewrite He0, bind_ret_l.
    by erewrite bind_Raise by (apply call_Raise; exact Hq).
  - intros p scores ids w2 e w3 Hq Hget. unfold run. rewrite Hds, Hk. fold k.
    called Hemb. unfold getitem. rewrite He0, bind_ret_l.
    called Hq.
    by erewrite bind_Raise by (apply call_Raise; exact Hget).
  - intros p scores ids w2 docs w3 Hq Hget.
    destruct (pair_up_spec docs scores (mkMem (heap m) w3))
      as (result & h' & Hpair & _).
    exists result, h'. split; [exact Hpair|].
    assert (Hrun : run self text k_arg m
                   = (let '(r, m', evs) :=
                        rerank self text result (mkMem h' w3) in
                      (r, m', asked ++ EvDsGet ids :: evs))).
    { erewrite run_steps;
        [|exact Hds|exact Hemb|exact He0|rewrite Hk; exact Hq|exact Hget].
      erewrite bind_Ok by exact Hpair. rewrite Hk. simpl.
      by destruct (rerank _ _ _ _) as [[??]?]. }
    split; [exact Hrun|].
    intros Hrs. rewrite Hrun. unfold rerank. by rewrite Hrs.
Qed.
End RetrievalFacts.

(** ** The Cohere reranker *)
Section CohereFacts.
Context `{Platform}.
Import CohereReranking.

Lemma same_but_relevance_refl d : same_but_relevance d d.
Proof. by repeat split. Qed.

Lemma same_but_relevance_trans d1 d2 d3 :
  same_but_relevance d1 d2 → same_but_relevance d2 d3 →
  same_but_relevance d1 d3.
Proof.
  intros (?&?&?&?) (?&?&?&?). repeat split; by etrans.
Qed.

Lemma same_but_relevance_set_meta d v :
  same_but_relevance d (set_meta "relevance_score" v d).
Proof. repeat split. simpl. apply delete_insert_eq. Qed.

(** The annotation loop, when every index the service returned is in
    range: it returns the documents picked by the indices, in the
    order of the results; it creates no object and changes no
    document but in its relevance entry; documents not picked are
    untouched; and a picked document carries the score of the last
    result that picked it. *)
Lemma annotate_spec documents results acc m :
  Forall (λ l, is_Some (heap m !! l)) documents →
  Forall (λ r, is_Some (list_getitem documents (index r))) results →
  ∃ picked h',
    annotate documents results acc m
      = (Ok (acc ++ picked), mkMem h' (world m), [])
    ∧ Forall2 (λ r l, list_getitem documents (index r) = Some l)
              results picked
    ∧ (∀ l, option_Forall2 same_but_relevance (heap m !! l) (h' !! l))
    ∧ (∀ l, l ∉ picked → h' !! l = heap m !! l)
    ∧ (∀ i r l,
         results !! i = Some r → picked !! i = Some l →
         (∀ j, i < j → picked !! j ≠ Some l) →
         ∃ d', h' !! l = Some d'
               ∧ metadata d' !! "relevance_score"
                 = Some (MFloat (relevance_score r))).
Proof.
  intros Hdocs Hres. revert acc m Hdocs.
  induction Hres as [|r results [l Hl] _ IH]; intros acc m Hdocs.
  - exists [], (heap m). destruct m. simpl. unfold ret.
    rewrite app_nil_r. split_and!; try done.
    intros l. destruct (_ !! l); constructor.
    apply same_but_relevance_refl.
  - assert (Hin : l ∈ documents) by by eapply list_getitem_elem_of.
    destruct (proj1 (Forall_forall _ _) Hdocs l Hin) as [d Hd].
    set (d1 := set_meta "relevance_score" (MFloat (relevance_score r)) d).
    set (m1 := mkMem (<[l := d1]> (heap m)) (world m)).
    destruct (IH (acc ++ [l]) m1) as (picked & h' & Hrun & Hpick & Hsame
                                      & Hrest & Hlast).
    { eapply Forall_impl; [exact Hdocs|]. intros l0 Hl0. simpl.
      apply lookup_insert_is_Some'. by right. }
    exists (l :: picked), h'. split_and!.
    + simpl. unfold getitem. rewrite Hl, bind_ret_l.
      unfold bind at 1, update at 1. rewrite Hd. fold d1 m1.
      rewrite Hrun. by rewrite <- app_assoc.
    + by constructor.
    + intros l0. specialize (Hsame l0). simpl in Hsame.
      destruct (decide (l0 = l)) as [->|Hne].
      * rewrite lookup_insert_eq in Hsame. rewrite Hd.
        inversion Hsame as [? d' Hd'|]; subst. constructor.
        eapply same_but_relevance_trans; [|exact Hd'].
        apply same_but_relevance_set_meta.
      * by rewrite lookup_insert_ne in Hsame.
    + intros l0 [Hne Hnotin]%not_elem_of_cons.
      rewrite (Hrest l0 Hnotin). simpl. by rewrite lookup_insert_ne.
    + intros [|i] r0 l0; simpl.
      * intros [= <-] [= <-] Hlater.
        assert (Hnotin : l ∉ picked).
        { intros [j Hj]%list_elem_of_lookup_1.
          apply (Hlater (S j)); [lia|done]. }
        rewrite (Hrest l Hnotin). simpl. rewrite lookup_insert_eq.
        eexists. split; [done|]. simpl. by rewrite lookup_insert_eq.
      * intros Hr Hp Hlater. apply (Hlast i r0 l0 Hr Hp).
        intros j Hij. apply (Hlater (S j)). lia.
Qed.

(** C6.  Called with no document, the Cohere reranker never calls the
    ranking service, whatever the environment.  What it returns depends
    on the two steps that come before the test for the empty input:
    without the [cohere] package the call raises the [ImportError];
    when the client cannot be built it raises what the constructor
    raised; and when the client is built it returns the empty list,
    the construction of the client being the only event. *)
Theorem empty_input_skips_the_service cohere self query m :
  calls is_ranking_service_call (run cohere self [] query m).2 = 0
  ∧ (cohere = None →
     run cohere self [] query m
     = (Raise (ImportError
          "Please install Cohere `pip install cohere` to use Cohere Reranking"),
        m, []))
  ∧ (∀ co c w1,
       cohere = Some co →
       Client_new co (cohere_api_key self) (world m) = (Ok c, w1) →
       run cohere self [] query m
       = (Ok [], mkMem (heap m) w1, [EvCohereClient (cohere_api_key self)]))
  ∧ (∀ co e w1,
       cohere = Some co →
       Client_new co (cohere_api_key self) (world m) = (Raise e, w1) →
       run cohere self [] query m
       = (Raise e, mkMem (heap m) w1,
          [EvCohereClient (cohere_api_key self)])).
Proof.
  split_and!.
  - destruct cohere as [co|]; [|done]. unfold run, bind, call.
    destruct (Client_new co _ _) as [[?|?] ?]; reflexivity.
  - by intros ->.
  - intros co c w1 -> Hc. unfold run.
    by erewrite bind_Ok by (apply call_Ok; exact Hc).
  - intros co e w1 -> Hc. unfold run.
    by erewrite bind_Raise by (apply call_Raise; exact Hc).
Qed.

(** C9.  The Cohere reranker works on its input documents in place.
    When the documents exist, the client is built, the service
    answers and its indices are in range, the output lists, result by
    result, the very reference found in the input list at the index
    the service returned (counted from the end when negative); no
    object is created, and every document keeps its id, its text, its
    score and all its metadata but for the entry [relevance_score],
    which on an output document is the service's score (of the last
    result that picked it).  Documents left out are untouched. *)
Theorem cohere_annotates_in_place co self documents query m
    _docs c w1 results w2 :
  documents ≠ [] →
  Forall2 (λ l s, content <$> heap m !! l = Some s) documents _docs →
  Client_new co (cohere_api_key self) (world m) = (Ok c, w1) →
  Client_rerank co c (model_name self) query _docs (top_k self) w1
    = (Ok results, w2) →
  Forall (λ r, is_Some (list_getitem documents (index r))) results →
  ∃ out h',
    run (Some co) self documents query m
      = (Ok out, mkMem h' w2,
         [EvCohereClient (cohere_api_key self);
          EvCohereRerank (model_name self) query _docs (top_k self)])
    ∧ Forall2 (λ r l, list_getitem documents (index r) = Some l)
              results out
    ∧ (∀ l, l ∈ out → l ∈ documents)
    ∧ dom h' = dom (heap m)
    ∧ (∀ l, option_Forall2 same_but_relevance (heap m !! l) (h' !! l))
    ∧ (∀ l, l ∉ out → h' !! l = heap m !! l)
    ∧ (∀ i r l,
         results !! i = Some r → out !! i = Some l →
         (∀ j, i < j → out !! j ≠ Some l) →
         ∃ d', h' !! l = Some d'
               ∧ metadata d' !! "relevance_score"
                 = Some (MFloat (relevance_score r))).
Proof.
  intros Hne Hread Hc Hrank Hres.
  assert (Hdocs : Forall (λ l, is_Some (heap m !! l)) documents).
  { clear -Hread. induction Hread as [|l s ?? Hl]; constructor; [|done].
    by destruct (heap m !! l). }
  destruct (annotate_spec documents results []
              (mkMem (heap m) w2) Hdocs Hres)
    as (out & h' & Hrun & Hpick & Hsame & Hrest & Hlast).
  exists out, h'. split_and!; try done.
  - unfold run. erewrite bind_Ok by (apply call_Ok; exact Hc). simpl.
    destruct documents as [|l0 documents0] eqn:Heq; [done|].
    rewrite <- Heq in *. clear Heq.
    erewrite bind_Ok by (by apply read_all). simpl.
    erewrite bind_Ok by (apply call_Ok; exact Hrank). simpl.
    by rewrite Hrun.
  - intros l [i Hi]%list_elem_of_lookup_1.
    destruct (Forall2_lookup_r _ _ _ _ _ Hpick Hi) as (r & _ & Hr).
    by eapply list_getitem_elem_of.
  - apply set_eq. intros l. rewrite !elem_of_dom.
    specialize (Hsame l). simpl in Hsame.
    inversion Hsame; split; intros [??]; by eauto.
Qed.
End CohereFacts.

(** ** Indexing *)
Section IndexingFacts.
Context `{Platform}.
Import VectorIndexing.

Lemma uuids_app (e1 e2 : list Event) : uuids (e1 ++ e2) = uuids e1 ++ uuids e2.
Proof. apply omap_app. Qed.

Lemma wrapped_weaken h0 h h1 item l :
  h0 ⊆ h → wrapped h h1 item l → wrapped h0 h1 item l.
Proof.
  intros Hsub. destruct item; simpl; try done.
  intros [Hnone Hsome]. split; [|done].
  destruct (h0 !! l) as [d|] eqn:Hd; [|done].
  by rewrite (lookup_weaken _ _ _ _ Hd Hsub) in Hnone.
Qed.

Lemma created_fresh h h1 items news l :
  Forall2 (wrapped h h1) items news →
  l ∈ created items news → h !! l = None.
Proof.
  induction 1 as [|item l' items news Hw _ IH]; simpl.
  - by intros ?%elem_of_nil.
  - destruct item; simpl in *; try done.
    intros [->|?]%elem_of_cons; [by destruct Hw|by apply IH].
Qed.

(** The loop over accepted items: it appends one reference per item
    and calls nothing but [uuid4], once per string, whose outputs are,
    in order, the ids of the documents it creates. *)
Lemma collect_accepted items acc m :
  Forall (λ v, accepted v = true) items →
  ∃ news m1 evs,
    collect items acc m = (Ok (acc ++ news), m1, evs)
    ∧ heap m ⊆ heap m1
    ∧ Forall (λ e, is_uuid_call e = true) evs
    ∧ Forall2 (wrapped (heap m) (heap m1)) items news
    ∧ NoDup (created items news)
    ∧ uuids evs = omap (λ l, id_ <$> heap m1 !! l) (created items news).
Proof.
  intros Hacc. revert acc m.
  induction Hacc as [|item items Hitem _ IH]; intros acc m.
  - exists [], m, []. simpl. unfold ret. rewrite app_nil_r.
    split_and!; try done; constructor.
  - destruct item as [s|d| |]; try done; simpl.
    + destruct (uuid4 (world m)) as [u w'] eqn:Hu.
      set (l := fresh (dom (heap m))).
      assert (Hl : heap m !! l = None).
      { apply not_elem_of_dom, is_fresh. }
      set (mb := mkMem (<[l := Document_new s u]> (heap m)) w').
      destruct (IH (acc ++ [l]) mb)
        as (news & m1 & evs & Hrun & Hsub & Hevs & Hw & Hnd & Hids).
      assert (Hsub0 : heap m ⊆ heap mb) by by apply insert_subseteq.
      assert (Hl1 : heap m1 !! l = Some (Document_new s u)).
      { eapply lookup_weaken; [|exact Hsub]. apply lookup_insert_eq. }
      exists (l :: news), m1, (EvUuid4 u :: evs). split_and!.
      * unfold bind at 1, fresh_uuid at 1. rewrite Hu.
        unfold bind at 1, new_object at 1. simpl. fold l mb.
        rewrite Hrun. by rewrite <- app_assoc.
      * by etrans.
      * by constructor.
      * constructor; [simpl; by eauto|].
        eapply Forall2_impl; [exact Hw|]. intros ??.
        by apply wrapped_weaken.
      * constructor; [|done]. intros Hin.
        apply (created_fresh _ _ _ _ _ Hw) in Hin. simpl in Hin.
        by rewrite lookup_insert_eq in Hin.
      * simpl. rewrite Hl1. simpl. by f_equal.
    + destruct (IH (acc ++ [d]) m)
        as (news & m1 & evs & Hrun & Hsub & Hevs & Hw & Hnd & Hids).
      exists (d :: news), m1, evs. split_and!; try done.
      * rewrite Hrun. by rewrite <- app_assoc.
      * by constructor.
Qed.

(** The loop stops at the first item that is neither a string nor a
    document. *)
Lemma collect_rejected items acc m :
  Exists (λ v, accepted v = false) items →
  ∃ item m1 evs,
    item ∈ items ∧ accepted item = false
    ∧ collect items acc m
      = (Raise (ValueError ("Invalid input type " +:+ type_repr item
                            +:+ ", should be str or Document")),
         m1, evs)
    ∧ heap m ⊆ heap m1
    ∧ Forall (λ e, is_uuid_call e = true) evs.
Proof.
  revert acc m. induction items as [|item items IH]; intros acc m Hex.
  - by apply Exists_nil in Hex.
  - destruct item as [s|d|xs|n]; simpl.
    + apply Exists_cons in Hex as [?|Hex]; [done|].
      destruct (uuid4 (world m)) as [u w'] eqn:Hu.
      set (l := fresh (dom (heap m))).
      assert (Hl : heap m !! l = None).
      { apply not_elem_of_dom, is_fresh. }
      set (mb := mkMem (<[l := Document_new s u]> (heap m)) w').
      destruct (IH (acc ++ [l]) mb Hex)
        as (item & m1 & evs & Hin & Hitem & Hrun & Hsub & Hevs).
      exists item, m1, (EvUuid4 u :: evs). split_and!; try done.
      * by right.
      * unfold bind at 1, fresh_uuid at 1. rewrite Hu.
        unfold bind at 1, new_object at 1. simpl. fold l mb.
        by rewrite Hrun.
      * etrans; [|exact Hsub]. by apply insert_subseteq.
      * by constructor.
    + apply Exists_cons in Hex as [?|Hex]; [done|].
      destruct (IH (acc ++ [d]) m Hex)
        as (item & m1 & evs & Hin & Hitem & Hrun & Hsub & Hevs).
      exists item, m1, evs. split_and!; try done. by right.
    + exists (PList xs), m, []. split_and!; try done; by constructor.
    + exists (PObj n), m, []. split_and!; try done; by constructor.
Qed.

Lemma collect_Ok_accepted items acc m out m1 evs :
  collect items acc m = (Ok out, m1, evs) →
  Forall (λ v, accepted v = true) items.
Proof.
  intros Hrun. apply Forall_forall. intros item Hin.
  destruct (accepted item) eqn:Hitem; [done|].
  destruct (collect_rejected items acc m) as (?&?&?&_&_&Hrun'&_).
  { apply Exists_exists. by eauto. }
  congruence.
Qed.

(** Lines 62-68 when every collaborator returns. *)
Lemma store_steps self input_ m embs ids w1 w2 w3 :
  emb_call (embedding self) (PList (PDoc <$> input_)) (heap m) (world m)
    = (Ok embs, w1) →
  Forall2 (λ l i, id_ <$> heap m !! l = Some i) input_ ids →
  vs_add (vector_store self) embs ids w1 = (Ok tt, w2) →
  match store_in_use (doc_store self) w2 with
  | Some ds => ds_add ds input_ (heap m) w2 = (Ok tt, w3)
  | None => w3 = w2
  end →
  store self input_ m
    = (Ok tt, mkMem (heap m) w3,
       [EvEmbedding (PList (PDoc <$> input_)); EvVsAdd embs ids]
       ++ match store_in_use (doc_store self) w2 with
          | Some _ => [EvDsAdd input_]
          | None => []
          end).
Proof.
  intros Hemb Hids Hadd Hds. unfold store.
  erewrite bind_Ok by (apply call_Ok; exact Hemb). simpl.
  erewrite bind_Ok by (by apply (read_all id_)). simpl.
  erewrite bind_Ok by (apply call_Ok; exact Hadd). simpl.
  unfold store_in_use in *. destruct (doc_store self) as [ds|].
  - unfold bind at 1, truth at 1. simpl. destruct (ds_bool ds w2).
    + by erewrite call_Ok by exact Hds.
    + by subst.
  - by subst.
Qed.

Lemma run_batch_document_steps
    (self : IndexVectorStoreFromDocumentPipeline.t)
    text m embs ids w1 w2 w3 :
  emb_call (IndexVectorStoreFromDocumentPipeline.embedding self)
    (PList (PDoc <$> text)) (heap m) (world m) = (Ok embs, w1) →
  Forall2 (λ l i, id_ <$> heap m !! l = Some i) text ids →
  vs_add (IndexVectorStoreFromDocumentPipeline.vector_store self)
    embs ids w1 = (Ok tt, w2) →
  match store_in_use
          (IndexVectorStoreFromDocumentPipeline.doc_store self) w2 with
  | Some ds => ds_add ds text (heap m) w2 = (Ok tt, w3)
  | None => w3 = w2
  end →
  IndexVectorStoreFromDocumentPipeline.run_batch_document self text m
    = (Ok tt, mkMem (heap m) w3,
       [EvEmbedding (PList (PDoc <$> text)); EvVsAdd embs ids]
       ++ match store_in_use
                  (IndexVectorStoreFromDocumentPipeline.doc_store self) w2
          with
          | Some _ => [EvDsAdd text]
          | None => []
          end).
Proof.
  intros Hemb Hids Hadd Hds.
  exact (store_steps
           {| vector_store :=
                IndexVectorStoreFromDocumentPipeline.vector_store self;
              doc_store := IndexVectorStoreFromDocumentPipeline.doc_store self;
              embedding := IndexVectorStoreFromDocumentPipeline.embedding self |}
           text m embs ids w1 w2 w3 Hemb Hids Hadd Hds).
Qed.

(** C1.  For an input of [n] accepted items, normalised to the
    documents [input_]: the embedding model is called once, on the
    whole batch; the vector store receives one [add], with the
    embeddings the model returned, whatever their number, and the ids
    of the [n] documents in the order of the input ([input_] stands
    item by item for the input); and when a document store is
    configured and true in a boolean test it receives one [add] with
    these same [n] documents, after the vector store, so that both
    stores were given the same ids.  The batch entry point
    [run_batch_document] of the other pipeline does the same on
    [input_]. *)
Theorem indexing_writes_one_batch self text m
    input_ m1 evs0 embs ids w1 w2 w3 :
  collect (as_list text) [] m = (Ok input_, m1, evs0) →
  emb_call (embedding self) (PList (PDoc <$> input_)) (heap m1) (world m1)
    = (Ok embs, w1) →
  Forall2 (λ l i, id_ <$> heap m1 !! l = Some i) input_ ids →
  vs_add (vector_store self) embs ids w1 = (Ok tt, w2) →
  match doc_store self with
  | Some ds =>
      ds_bool ds w2 = true ∧ ds_add ds input_ (heap m1) w2 = (Ok tt, w3)
  | None => w3 = w2
  end →
  let n := length (items_of text) in
  let written :=
    [EvEmbedding (PList (PDoc <$> input_)); EvVsAdd embs ids]
    ++ match doc_store self with
       | Some _ => [EvDsAdd input_]
       | None => []
       end in
  run self text m = (Ok tt, mkMem (heap m1) w3, evs0 ++ written)
  ∧ IndexVectorStoreFromDocumentPipeline.run_batch_document
      {| IndexVectorStoreFromDocumentPipeline.vector_store :=
           vector_store self;
         IndexVectorStoreFromDocumentPipeline.doc_store := doc_store self;
         IndexVectorStoreFromDocumentPipeline.embedding := embedding self |}
      input_ m1
    = (Ok tt, mkMem (heap m1) w3, written)
  ∧ length input_ = n ∧ length ids = n
  ∧ Forall2 (wrapped (heap m) (heap m1)) (items_of text) input_
  ∧ calls is_embedding_call (evs0 ++ written) = 1
  ∧ calls is_vector_add (evs0 ++ written) = 1
  ∧ calls is_doc_add (evs0 ++ written)
    = match doc_store self with Some _ => 1 | None => 0 end.
Proof.
  intros Hcollect Hemb Hids Hadd Hds n written.
  assert (Hitems : items_of text = as_list text) by by destruct text.
  unfold n. rewrite Hitems. clear n.
  assert (Hacc := collect_Ok_accepted _ _ _ _ _ _ Hcollect).
  destruct (collect_accepted _ [] m Hacc)
    as (news & m1' & evs' & Hrun & _ & Hevs & Hw & _).
  rewrite Hcollect in Hrun. injection Hrun as -> <- <-.
  assert (Hn : length news = length (as_list text)).
  { symmetry. by eapply Forall2_length. }
  assert (Hnone : ∀ p, (∀ e, is_uuid_call e = true → p e = false) →
                       calls p evs0 = 0).
  { intros p Hp. unfold calls. clear -Hevs Hp.
    induction Hevs as [|e evs He _ IH]; [done|].
    simpl. by rewrite (Hp e He). }
  assert (Huse : match store_in_use (doc_store self) w2 with
                 | Some ds => ds_add ds news (heap m1) w2 = (Ok tt, w3)
                 | None => w3 = w2
                 end
                 ∧ written
                   = [EvEmbedding (PList (PDoc <$> news)); EvVsAdd embs ids]
                     ++ match store_in_use (doc_store self) w2 with
                        | Some _ => [EvDsAdd news]
                        | None => []
                        end).
  { unfold written, store_in_use. destruct (doc_store self) as [ds|]; [|done].
    destruct Hds as [-> Hds]. done. }
  destruct Huse as [Huse ->].
  split_and!.
  - unfold run. erewrite bind_Ok by exact Hcollect.
    by rewrite (store_steps self news m1 embs ids w1 w2 w3 Hemb Hids Hadd Huse).
  - exact (run_batch_document_steps
             {| IndexVectorStoreFromDocumentPipeline.vector_store :=
                  vector_store self;
                IndexVectorStoreFromDocumentPipeline.doc_store :=
                  doc_store self;
                IndexVectorStoreFromDocumentPipeline.embedding :=
                  embedding self |}
             news m1 embs ids w1 w2 w3 Hemb Hids Hadd Huse).
  - done.
  - rewrite <- Hn. symmetry. by eapply Forall2_length.
  - done.
  - rewrite calls_app, Hnone by by intros []. unfold store_in_use.
    destruct (doc_store self) as [ds|]; [|done]. by destruct Hds as [-> _].
  - rewrite calls_app, Hnone by by intros []. unfold store_in_use.
    destruct (doc_store self) as [ds|]; [|done]. by destruct Hds as [-> _].
  - rewrite calls_app, Hnone by by intros []. unfold store_in_use.
    destruct (doc_store self) as [ds|]; [|done]. by destruct Hds as [-> _].
Qed.

(** C7.  The items of a call are the elements of a list input, and
    the input itself when it is not a list.  If one of them is neither
    a string nor a [Document], the call raises the [ValueError] that
    names the offending type, before the embedding model or a store is
    called.  Otherwise each string is wrapped into a new document with
    that text whose id is the output of a [uuid4] call of its own, and
    each [Document] goes through as the same object, unchanged.  In
    particular an input that is one string is indexed as one new
    document, one that is a [Document] as that document, and one that
    is anything else but a list is refused with nothing done. *)
Theorem indexing_normalises_its_input self text m :
  (Exists (λ v, accepted v = false) (items_of text) →
   ∃ item m1 evs,
     item ∈ items_of text ∧ accepted item = false
     ∧ run self text m
       = (Raise (ValueError ("Invalid input type " +:+ type_repr item
                             +:+ ", should be str or Document")),
          m1, evs)
     ∧ heap m ⊆ heap m1
     ∧ Forall (λ e, is_uuid_call e = true) evs)
  ∧ (Forall (λ v, accepted v = true) (items_of text) →
     ∃ input_ m1 evs,
       collect (items_of text) [] m = (Ok input_, m1, evs)
       ∧ run self text m
         = (let '(r, m2, evs2) := store self input_ m1 in
            (r, m2, evs ++ evs2))
       ∧ Forall2 (wrapped (heap m) (heap m1)) (items_of text) input_
       ∧ heap m ⊆ heap m1
       ∧ NoDup (created (items_of text) input_)
       ∧ uuids evs
         = omap (λ l, id_ <$> heap m1 !! l)
                (created (items_of text) input_))
  ∧ (∀ s,
       text = PStr s →
       ∃ l u w',
         uuid4 (world m) = (u, w')
         ∧ heap m !! l = None
         ∧ run self text m
           = (let '(r, m2, evs2) :=
                store self [l]
                  (mkMem (<[l := Document_new s u]> (heap m)) w') in
              (r, m2, EvUuid4 u :: evs2)))
  ∧ (∀ d, text = PDoc d → run self text m = store self [d] m)
  ∧ (∀ n,
       text = PObj n →
       run self text m
       = (Raise (ValueError ("Invalid input type " +:+ type_repr (PObj n)
                             +:+ ", should be str or Document")),
          m, [])).
Proof.
  assert (Hitems : items_of text = as_list text) by by destruct text.
  rewrite Hitems. split_and!.
  - intros Hex.
    destruct (collect_rejected _ [] m Hex)
      as (item & m1 & evs & Hin & Hitem & Hrun & Hsub & Hevs).
    exists item, m1, evs. split_and!; try done.
    unfold run. by erewrite bind_Raise.
  - intros Hacc.
    destruct (collect_accepted _ [] m Hacc)
      as (input_ & m1 & evs & Hrun & Hsub & Hevs & Hw & Hnd & Hids).
    exists input_, m1, evs. split_and!; try done.
    unfold run. by erewrite bind_Ok.
  - intros s ->. destruct (uuid4 (world m)) as [u w'] eqn:Hu.
    exists (fresh (dom (heap m))), u, w'. split_and!; [done| |].
    + apply not_elem_of_dom, is_fresh.
    + unfold run, as_list, collect.
      unfold bind at 1 2, fresh_uuid at 1. rewrite Hu.
      unfold bind at 1, new_object at 1. simpl.
      unfold bind, ret. simpl.
      by destruct (store self _ _) as [[r m2] evs2].
  - intros d ->. unfold run, as_list, collect. simpl.
    by rewrite bind_ret_l.
  - by intros n ->.
Qed.
End IndexingFacts.

(** ** Persistence *)
Section PersistenceFacts.
Context `{Platform}.
Import IndexVectorStoreFromDocumentPipeline.

(** C10.  [save] and [load] call the vector store's and then the
    document store's persistence, with no test in between, under the
    sub-paths [vectorstore] and [docstore] of the given path.  Without
    a document store they fail: the vector store's [save] or [load] is
    called, and when it returns the call raises the [AttributeError]
    of [None]; indexing, on the same pipeline, succeeds. *)
Theorem save_and_load_need_both_stores self path m :
  let vs_path := Path_truediv (to_Path path) "vectorstore" in
  let ds_path := Path_truediv (to_Path path) "docstore" in
  (∀ ds w1,
     doc_store self = Some ds →
     (vs_save (vector_store self) vs_path (world m) = (Ok tt, w1) →
      save_default self path m
      = (let '(r, w2) := ds_save ds ds_path w1 in
         (r, mkMem (heap m) w2, [EvVsSave vs_path; EvDsSave ds_path])))
     ∧ (vs_load (vector_store self) vs_path (world m) = (Ok tt, w1) →
        load_default self path m
        = (let '(r, w2) := ds_load ds ds_path w1 in
           (r, mkMem (heap m) w2, [EvVsLoad vs_path; EvDsLoad ds_path]))))
  ∧ (doc_store self = None →
     (∃ e m', save_default self path m = (Raise e, m', [EvVsSave vs_path]))
     ∧ (∃ e m', load_default self path m = (Raise e, m', [EvVsLoad vs_path]))
     ∧ (∀ w1,
          vs_save (vector_store self) vs_path (world m) = (Ok tt, w1) →
          save_default self path m
          = (Raise (AttributeError
                      "'NoneType' object has no attribute 'save'"),
             mkMem (heap m) w1, [EvVsSave vs_path]))
     ∧ (∀ w1,
          vs_load (vector_store self) vs_path (world m) = (Ok tt, w1) →
          load_default self path m
          = (Raise (AttributeError
                      "'NoneType' object has no attribute 'load'"),
             mkMem (heap m) w1, [EvVsLoad vs_path]))
     ∧ (∀ text embs ids w1 w2,
          emb_call (embedding self) (PList (PDoc <$> text))
            (heap m) (world m) = (Ok embs, w1) →
          Forall2 (λ l i, id_ <$> heap m !! l = Some i) text ids →
          vs_add (vector_store self) embs ids w1 = (Ok tt, w2) →
          run_batch_document self text m
          = (Ok tt, mkMem (heap m) w2,
             [EvEmbedding (PList (PDoc <$> text)); EvVsAdd embs ids]))).
Proof.
  intros vs_path ds_path. split.
  - intros ds w1 Hds. split; intros Hvs.
    + unfold save_default, save. fold vs_path ds_path.
      erewrite bind_Ok by (apply call_Ok; exact Hvs). rewrite Hds.
      unfold call. simpl. by destruct (ds_save _ _ _).
    + unfold load_default, load. fold vs_path ds_path.
      erewrite bind_Ok by (apply call_Ok; exact Hvs). rewrite Hds.
      unfold call. simpl. by destruct (ds_load _ _ _).
  - intros Hds. split_and!.
    + unfold save_default, save, bind, call. fold vs_path. rewrite Hds.
      destruct (vs_save _ _ _) as [[[]|e] w]; by eauto.
    + unfold load_default, load, bind, call. fold vs_path. rewrite Hds.
      destruct (vs_load _ _ _) as [[[]|e] w]; by eauto.
    + intros w1 Hvs. unfold save_default, save. fold vs_path.
      erewrite bind_Ok by (apply call_Ok; exact Hvs). by rewrite Hds.
    + intros w1 Hvs. unfold load_default, load. fold vs_path.
      erewrite bind_Ok by (apply call_Ok; exact Hvs). by rewrite Hds.
    + intros text embs ids w1 w2 Hemb Hids Hadd.
      rewrite (run_batch_document_steps self text m embs ids w1 w2 w2
                 Hemb Hids Hadd); by rewrite Hds.
Qed.
End PersistenceFacts.

(** ** The registry of public events *)
Section RegistryFacts.
Context {HookDef : Type}.
#[local] Set Warnings "-clear-no-such-hyp".
Implicit Types (self : BaseApp.t HookDef) (d : HookDef) (ds : list HookDef).
Import BaseApp.

Lemma init_ok : registry_ok (init (HookDef := HookDef)).
Proof. split; intros *; simpl; by rewrite lookup_empty. Qed.

Lemma for_all_app {A} (f : A → App (HookDef := HookDef) unit) xs ys self :
  for_all f (xs ++ ys) self =
    match for_all f xs self with
    | (inr _, self') => for_all f ys self'
    | (inl e, self') => (inl e, self')
    end.
Proof.
  revert self. induction xs as [|x xs IH]; intros self; [done|].
  simpl. destruct (f x self) as [[e|[]] self']; [done|]. apply IH.
Qed.

Lemma declare_event_fresh self name :
  registry_ok self → _events self !! name = None →
  ∃ self',
    declare_event name self = (inr tt, self')
    ∧ registry_ok self'
    ∧ subscribers self' name = Some []
    ∧ dom (_events self') = {[name]} ∪ dom (_events self)
    ∧ (∀ other, other ≠ name →
         _events self' !! other = _events self !! other)
    ∧ (∀ l, is_Some (lists self !! l) → read self' l = read self l).
Proof.
  intros [Hlist Hinj] Hname. unfold declare_event. rewrite Hname.
  set (l := fresh (dom (lists self))).
  assert (Hl : lists self !! l = None) by apply not_elem_of_dom, is_fresh.
  eexists. split; [done|]. split_and!.
  - split; simpl.
    + intros n l0. rewrite lookup_insert. case_decide as Hn.
      * intros [= <-]. rewrite lookup_insert_eq. by eexists.
      * intros Hl0. apply lookup_insert_is_Some'. right. by eapply Hlist.
    + intros n1 n2 l0. rewrite !lookup_insert.
      repeat case_decide; subst; try done.
      * intros [= <-] Hn2. apply Hlist in Hn2 as [? Hn2]. congruence.
      * intros Hn1 [= <-]. apply Hlist in Hn1 as [? Hn1]. congruence.
      * apply Hinj.
  - unfold subscribers, read. simpl. rewrite lookup_insert_eq. simpl.
    by rewrite lookup_insert_eq.
  - simpl. by rewrite dom_insert_L.
  - intros other Hother. simpl. by rewrite lookup_insert_ne.
  - intros l0 [ds0 Hl0]. unfold read. simpl. rewrite lookup_insert_ne; [done|].
    intros <-. congruence.
Qed.

Lemma subscribe_event_declared self name d l old :
  registry_ok self → _events self !! name = Some l → read self l = Some old →
  ∃ self',
    subscribe_event name d self = (inr tt, self')
    ∧ registry_ok self'
    ∧ _events self' = _events self
    ∧ read self' l = Some (old ++ [d])
    ∧ (∀ l0, l0 ≠ l → read self' l0 = read self l0).
Proof.
  intros [Hlist Hinj] Hname Hold. unfold subscribe_event. rewrite Hname.
  eexists. split; [done|]. unfold read in *. simpl. split_and!; try done.
  - split; simpl; [|done]. intros n l0 Hn.
    destruct (decide (l0 = l)) as [->|Hne].
    + rewrite lookup_alter_eq, Hold. by eexists.
    + rewrite lookup_alter_ne by done. by eapply Hlist.
  - by rewrite lookup_alter_eq, Hold.
  - intros l0 Hne. by rewrite lookup_alter_ne.
Qed.
Lemma subscribers_other_declare self self' name :
  registry_ok self →
  (∀ other, other ≠ name → _events self' !! other = _events self !! other) →
  (∀ l, is_Some (lists self !! l) → read self' l = read self l) →
  ∀ other, other ≠ name → subscribers self' other = subscribers self other.
Proof.
  intros [Hlist _] Hev Hread other Hother. unfold subscribers.
  rewrite Hev by done. destruct (_events self !! other) as [l|] eqn:Hl; [|done].
  simpl. apply Hread. by eapply Hlist.
Qed.

Lemma subscribe_all self name ds l old :
  registry_ok self → _events self !! name = Some l → read self l = Some old →
  ∃ self',
    for_all (subscribe_event name) ds self = (inr tt, self')
    ∧ registry_ok self'
    ∧ _events self' = _events self
    ∧ read self' l = Some (old ++ ds)
    ∧ (∀ l0, l0 ≠ l → read self' l0 = read self l0).
Proof.
  revert self old. induction ds as [|d ds IH]; intros self old Hok Hname Hold.
  - exists self. rewrite app_nil_r. by split_and!.
  - destruct (subscribe_event_declared self name d l old Hok Hname Hold)
      as (s1 & Hrun1 & Hok1 & Hev1 & Hl1 & Hother1).
    destruct (IH s1 (old ++ [d]) Hok1) as (s2 & Hrun2 & Hok2 & Hev2 & Hl2 & Hother2);
      [by rewrite Hev1|done|].
    exists s2. simpl. rewrite Hrun1. split_and!; try done.
    + by rewrite Hev2.
    + by rewrite Hl2, <- app_assoc.
    + intros l0 Hl0. by rewrite Hother2, Hother1.
Qed.

(** Declaring names that are new and pairwise distinct succeeds and adds
    exactly these names, each with an empty list. *)
Lemma declare_all_spec ns self :
  registry_ok self → NoDup ns →
  (∀ n, n ∈ ns → _events self !! n = None) →
  ∃ self',
    for_all declare_event ns self = (inr tt, self')
    ∧ registry_ok self'
    ∧ dom (_events self') = list_to_set ns ∪ dom (_events self)
    ∧ (∀ n, n ∈ ns → subscribers self' n = Some [])
    ∧ (∀ n, n ∉ ns → subscribers self' n = subscribers self n).
Proof.
  intros Hok Hnd. revert self Hok.
  induction Hnd as [|n ns Hn Hnd IH]; intros self Hok Hnew.
  - exists self. split_and!; try done; [set_solver|by intros ? ?%elem_of_nil].
  - destruct (declare_event_fresh self n Hok) as
      (s1 & Hrun1 & Hok1 & Hsub1 & Hdom1 & Hev1 & Hread1);
      [apply Hnew; by left|].
    destruct (IH s1 Hok1) as (s2 & Hrun2 & Hok2 & Hdom2 & Hsub2 & Hrest2).
    { intros n' Hn'. rewrite Hev1; [apply Hnew; by right|]. by intros ->. }
    exists s2. simpl. rewrite Hrun1. split_and!; try done.
    + rewrite Hdom2, Hdom1. set_solver.
    + intros n' [->|Hn']%elem_of_cons; [|by apply Hsub2].
      by rewrite Hrest2.
    + intros n' [Hne Hn']%not_elem_of_cons. rewrite Hrest2 by done.
      by eapply subscribers_other_declare.
Qed.

Lemma declare_all_inv ns self self' :
  for_all declare_event ns self = (inr tt, self') →
  NoDup ns ∧ ∀ n, n ∈ ns → _events self !! n = None.
Proof.
  revert self. induction ns as [|n ns IH]; intros self.
  - intros _. split; [constructor|by intros ? ?%elem_of_nil].
  - simpl. unfold declare_event at 1.
    destruct (_events self !! n) eqn:Hn; [done|].
    intros [Hnd Hnew]%IH. simpl in Hnew.
    assert (Hnotin : n ∉ ns).
    { intros Hin. apply Hnew in Hin. by rewrite lookup_insert_eq in Hin. }
    split; [by constructor|].
    intros n' [->|Hn']%elem_of_cons; [done|].
    specialize (Hnew n' Hn'). rewrite lookup_insert_ne in Hnew; [done|].
    by intros ->.
Qed.

Lemma page_ind (P : BasePage.t → Prop) :
  (∀ evs ps, Forall P ps → P (BasePage.Page evs ps)) → ∀ p, P p.
Proof.
  intros Hpage. fix IH 1. intros [evs ps]. apply Hpage.
  induction ps as [|p ps IHps]; constructor; [apply IH|exact IHps].
Qed.

(** Going down the tree of pages declares the events in the order of
    [all_events]. *)
Lemma declare_tree_is_flat p self :
  BasePage.declare_public_events p self
  = for_all declare_event (BasePage.all_events p) self.
Proof.
  revert self. induction p as [evs ps IH] using page_ind. intros self.
  simpl. rewrite for_all_app.
  destruct (for_all declare_event evs self) as [[e|[]] s1]; [done|].
  clear self. revert s1. induction IH as [|p ps Hp _ IHps]; intros s1; [done|].
  simpl. rewrite for_all_app, Hp.
  destruct (for_all declare_event (BasePage.all_events p) s1) as [[e|[]] s2];
    [done|].
  apply IHps.
Qed.

(** X12.  Once an event is declared, the definitions subscribed to it
    are kept in the order of subscription: after [declare_event] and
    then [subscribe_event] for [ds] one by one, [get_event] returns a
    list that reads [ds], and the subscribers of every other event are
    as before. *)
Theorem subscriptions_are_kept_in_order self name ds :
  registry_ok self → _events self !! name = None →
  ∃ s1 s2 l,
    declare_event name self = (inr tt, s1)
    ∧ for_all (subscribe_event name) ds s1 = (inr tt, s2)
    ∧ get_event name s2 = (inr l, s2)
    ∧ read s2 l = Some ds
    ∧ (∀ other, other ≠ name →
         subscribers s2 other = subscribers self other)
    ∧ registry_ok s2.
Proof.
  intros Hok Hname.
  destruct (declare_event_fresh self name Hok Hname)
    as (s1 & Hrun1 & Hok1 & Hsub1 & _ & Hev1 & Hread1).
  unfold subscribers in Hsub1.
  destruct (_events s1 !! name) as [l|] eqn:Hl; [|done]. simpl in Hsub1.
  destruct (subscribe_all s1 name ds l [] Hok1 Hl Hsub1)
    as (s2 & Hrun2 & Hok2 & Hev2 & Hl2 & Hother2).
  exists s1, s2, l. split_and!; try done.
  - unfold get_event. by rewrite Hev2, Hl.
  - intros other Hother.
    rewrite <- (subscribers_other_declare self s1 name Hok Hev1 Hread1 other)
      by done.
    unfold subscribers. rewrite Hev2.
    destruct (_events s1 !! other) as [l0|] eqn:Hl0; [|done]. simpl.
    apply Hother2. intros ->. destruct Hok1 as [_ Hinj].
    by apply Hother, (Hinj other name l).
Qed.

(** One call, returning or raising, keeps the registry well formed,
    keeps every declared event with its list, and at most appends to
    that list. *)
Lemma after_call_grows (c : registry_call HookDef) self :
  registry_ok self →
  registry_ok (after_call c self)
  ∧ ∀ name l old,
      _events self !! name = Some l → read self l = Some old →
      _events (after_call c self) !! name = Some l
      ∧ ∃ new, read (after_call c self) l = Some (old ++ new).
Proof.
  intros Hok.
  assert (Hsame : ∀ name l old,
            _events self !! name = Some l → read self l = Some old →
            _events self !! name = Some l
            ∧ ∃ new, read self l = Some (old ++ new)).
  { intros name l old ? Hold. split; [done|].
    exists []. by rewrite app_nil_r. }
  destruct c as [n|n d|n]; simpl.
  - destruct (_events self !! n) as [ln|] eqn:Hn.
    + unfold declare_event. by rewrite Hn.
    + destruct (declare_event_fresh self n Hok Hn)
        as (s1 & -> & Hok1 & _ & _ & Hev1 & Hread1).
      split; [done|]. intros name l old Hname Hold. simpl.
      rewrite Hev1 by congruence. split; [done|].
      exists []. rewrite app_nil_r, Hread1; [done|]. by eexists.
  - destruct (_events self !! n) as [ln|] eqn:Hn.
    + destruct (proj1 Hok n ln Hn) as [oldn Holdn].
      destruct (subscribe_event_declared self n d ln oldn Hok Hn Holdn)
        as (s1 & -> & Hok1 & Hev1 & Hl1 & Hother1).
      split; [done|]. intros name l old Hname Hold. simpl.
      rewrite Hev1. split; [done|].
      destruct (decide (l = ln)) as [->|Hne].
      * exists [d]. unfold read in *. congruence.
      * exists []. by rewrite app_nil_r, Hother1.
    + unfold subscribe_event. by rewrite Hn.
  - unfold get_event. by destruct (_events self !! n).
Qed.

Lemma after_calls_ok (cs : list (registry_call HookDef)) self :
  registry_ok self → registry_ok (after_calls cs self).
Proof.
  revert self. induction cs as [|c cs IH]; intros self Hok; [done|].
  simpl. apply IH. by apply after_call_grows.
Qed.

(** X13.  Whatever calls are made to the registry, in whatever order and
    whether they return or raise, an event that is declared stays
    declared with the same list object, and that list only grows at its
    end; the registry stays well formed. *)
Theorem registry_only_grows (cs : list (registry_call HookDef)) self :
  registry_ok self →
  registry_ok (after_calls cs self)
  ∧ ∀ name l old,
      _events self !! name = Some l → read self l = Some old →
      _events (after_calls cs self) !! name = Some l
      ∧ ∃ new, read (after_calls cs self) l = Some (old ++ new).
Proof.
  intros Hok. split; [by apply after_calls_ok|]. revert self Hok.
  induction cs as [|c cs IH]; intros self Hok name l old Hname Hold.
  { split; [done|]. exists []. by rewrite app_nil_r. }
  destruct (after_call_grows c self Hok) as [Hok1 Hgrow1]. simpl.
  destruct (Hgrow1 name l old Hname Hold) as [Hname1 [new1 Hnew1]].
  destruct (IH (after_call c self) Hok1 name l (old ++ new1) Hname1 Hnew1)
    as [Hname2 [new2 Hnew2]].
  split; [done|]. exists (new1 ++ new2). by rewrite app_assoc.
Qed.

(** X14.  [declare_public_events] on a page returns exactly when the
    events of the page and of the pages below it are pairwise distinct
    and none is declared yet; the registry then holds these events in
    addition, each with no subscriber, and the subscribers of the events
    it held before are unchanged. *)
Theorem declare_public_events_needs_new_names p self :
  registry_ok self →
  ((∃ self', BasePage.declare_public_events p self = (inr tt, self'))
   ↔ NoDup (BasePage.all_events p)
     ∧ ∀ n, n ∈ BasePage.all_events p → _events self !! n = None)
  ∧ ∀ self',
      BasePage.declare_public_events p self = (inr tt, self') →
      registry_ok self'
      ∧ dom (_events self')
        = list_to_set (BasePage.all_events p) ∪ dom (_events self)
      ∧ (∀ n, n ∈ BasePage.all_events p → subscribers self' n = Some [])
      ∧ (∀ n, n ∉ BasePage.all_events p →
           subscribers self' n = subscribers self n).
Proof.
  intros Hok. split.
  - split.
    + intros [self' Hrun]. rewrite declare_tree_is_flat in Hrun.
      by eapply declare_all_inv.
    + intros [Hnd Hnew].
      destruct (declare_all_spec _ self Hok Hnd Hnew) as (self' & Hrun & _).
      exists self'. by rewrite declare_tree_is_flat.
  - intros self' Hrun. rewrite declare_tree_is_flat in Hrun.
    destruct (declare_all_inv _ _ _ Hrun) as [Hnd Hnew].
    destruct (declare_all_spec _ self Hok Hnd Hnew) as (s2 & Hrun2 & Hrest).
    rewrite Hrun in Hrun2. by injection Hrun2 as <-.
Qed.

(** X15.  [declare_public_events] stops at the first event that is
    declared already, be it by an earlier page of the same tree: it
    raises [HookAlreadyDeclared] naming that event, the events met
    before it stay declared, and the events after it are not looked
    at. *)
Theorem declare_public_events_stops_at_clash p self good bad rest :
  registry_ok self →
  BasePage.all_events p = good ++ bad :: rest →
  NoDup good →
  (∀ n, n ∈ good → _events self !! n = None) →
  bad ∈ good ∨ is_Some (_events self !! bad) →
  ∃ self',
    for_all declare_event good self = (inr tt, self')
    ∧ BasePage.declare_public_events p self
      = (inl (HookAlreadyDeclared
                ("Hook " +:+ bad +:+ " is already declared")), self')
    ∧ (∀ n, n ∈ good → subscribers self' n = Some []).
Proof.
  intros Hok Hall Hnd Hnew Hbad.
  destruct (declare_all_spec good self Hok Hnd Hnew)
    as (self' & Hrun & _ & Hdom & Hsub & _).
  exists self'. split_and!; try done.
  rewrite declare_tree_is_flat, Hall, for_all_app, Hrun. simpl.
  unfold declare_event.
  assert (Hin : bad ∈ dom (_events self')).
  { rewrite Hdom. destruct Hbad as [?|?%elem_of_dom]; set_solver. }
  apply elem_of_dom in Hin as [l ->]. done.
Qed.

(** X16.  [get_event] hands out the registry's own list, not a copy: a
    definition subscribed afterwards shows at the end of the list
    obtained before, and [get_event] keeps returning that same list. *)
Theorem get_event_hands_out_the_list_itself self name l d :
  registry_ok self →
  get_event name self = (inr l, self) →
  ∃ self' old,
    subscribe_event name d self = (inr tt, self')
    ∧ read self l = Some old
    ∧ read self' l = Some (old ++ [d])
    ∧ get_event name self' = (inr l, self').
Proof.
  intros Hok Hget. unfold get_event in Hget.
  destruct (_events self !! name) as [l'|] eqn:Hname; [|done].
  injection Hget as ->.
  destruct (proj1 Hok name l Hname) as [old Hold].
  destruct (subscribe_event_declared self name d l old Hok Hname Hold)
    as (self' & Hrun & _ & Hev & Hl & _).
  exists self', old. split_and!; try done.
  unfold get_event. by rewrite Hev, Hname.
Qed.
End RegistryFacts.


(** ** More on sequencing *)
Section MoreRuntimeFacts.
Context `{Platform}.

(** An outcome is known from its result, the rest being what it is. *)
Lemma outcome_with {A} (x : Res A * Mem * list Event) (r : Res A) :
  x.1.1 = r → x = (r, x.1.2, x.2).
Proof. destruct x as [[??]?]. by intros <-. Qed.

Lemma bind_cong_l {A B} (c c' : M A) (k : A → M B) m :
  c m = c' m → bind c k m = bind c' k m.
Proof. unfold bind. by intros ->. Qed.

(** Reading attributes changes neither memory nor the world and calls
    nothing, whether every reference is good or not. *)
Lemma read_inv {B} (g : Document → B) (ls : list loc) m r m' evs :
  for_each (λ l, let* d := deref l in ret (g d)) ls m = (r, m', evs) →
  m' = m ∧ evs = [].
Proof.
  revert r m' evs. induction ls as [|l ls IH]; intros r m' evs; simpl.
  - by intros [= _ <- <-].
  - unfold bind at 1. unfold bind at 1. unfold deref at 1.
    destruct (heap m !! l) as [d|]; simpl; [|by intros [= _ <- <-]].
    unfold bind.
    destruct (for_each _ ls m) as [[[bs|e] m1] evs1] eqn:Hrest;
      destruct (IH _ _ _ eq_refl) as [-> ->]; by intros [= _ <- <-].
Qed.

Lemma new_objects_dom {A} (f : A → Document) (xs : list A) m ls m' evs :
  for_each (λ x, new_object (f x)) xs m = (Ok ls, m', evs) →
  dom (heap m') = dom (heap m) ∪ list_to_set ls.
Proof.
  revert m ls m' evs. induction xs as [|x xs IH]; intros m ls m' evs; simpl.
  - intros [= <- <- _]. simpl. by rewrite (right_id_L ∅ (∪)).
  - unfold bind at 1, new_object at 1. unfold bind.
    destruct (for_each _ xs _) as [[[ls'|e] m1] evs1] eqn:Hrest; [|done].
    intros [= <- <- _]. rewrite (IH _ _ _ _ Hrest). simpl.
    rewrite dom_insert_L.
    by rewrite (assoc_L (∪)), (comm_L (∪) (dom (heap m))).
Qed.
End MoreRuntimeFacts.

(** ** More on indexing *)
Section MoreIndexingFacts.
Context `{Platform}.
Import VectorIndexing.

Lemma collect_app xs ys acc m :
  collect (xs ++ ys) acc m
  = bind (collect xs acc) (λ acc', collect ys acc') m.
Proof.
  revert acc m. induction xs as [|item xs IH]; intros acc m.
  - simpl. by rewrite bind_ret_l.
  - destruct item; simpl; [|apply IH|done..].
    rewrite bind_assoc. apply bind_ext; intros u m1.
    rewrite bind_assoc. apply bind_ext; intros d m2. apply IH.
Qed.

(** On strings the loop is the comprehension of [run_batch_raw]. *)
Lemma collect_strings (ts : list string) acc m :
  collect (PStr <$> ts) acc m
  = bind (for_each (λ t, let* u := fresh_uuid in
                         new_object (Document_new t u)) ts)
         (λ ds, ret (acc ++ ds)) m.
Proof.
  revert acc m. induction ts as [|t ts IH]; intros acc m.
  - simpl. by rewrite bind_ret_l, app_nil_r.
  - simpl. rewrite !bind_assoc. apply bind_ext; intros u m1.
    apply bind_ext; intros d m2.
    rewrite bind_assoc. etrans; [apply IH|].
    apply bind_ext; intros ds m3.
    by rewrite bind_ret_l, <- app_assoc.
Qed.

Lemma collect_docs (ds : list loc) acc m :
  collect (PDoc <$> ds) acc m = (Ok (acc ++ ds), m, []).
Proof.
  revert acc. induction ds as [|d ds IH]; intros acc; simpl.
  - by rewrite app_nil_r.
  - by rewrite IH, <- app_assoc.
Qed.

(** X1.  The four entry points of [IndexVectorStoreFromDocumentPipeline]
    do what [VectorIndexing.run] does on the same parts: [run_raw] on a
    string, [run_batch_raw] on a list of strings, [run_document] on a
    document and [run_batch_document] on a list of documents have the
    same result, the same effects and the same calls as [run] on that
    input. *)
Theorem entry_points_agree (self : IndexVectorStoreFromDocumentPipeline.t) m :
  (∀ t,
     IndexVectorStoreFromDocumentPipeline.run_raw self t m
     = run (IndexVectorStoreFromDocumentPipeline.as_VectorIndexing self)
           (PStr t) m)
  ∧ (∀ ts,
       IndexVectorStoreFromDocumentPipeline.run_batch_raw self ts m
       = run (IndexVectorStoreFromDocumentPipeline.as_VectorIndexing self)
             (PList (PStr <$> ts)) m)
  ∧ (∀ d,
       IndexVectorStoreFromDocumentPipeline.run_document self d m
       = run (IndexVectorStoreFromDocumentPipeline.as_VectorIndexing self)
             (PDoc d) m)
  ∧ (∀ ds,
       IndexVectorStoreFromDocumentPipeline.run_batch_document self ds m
       = run (IndexVectorStoreFromDocumentPipeline.as_VectorIndexing self)
             (PList (PDoc <$> ds)) m).
Proof.
  assert (Hdocs : ∀ ds,
            IndexVectorStoreFromDocumentPipeline.run_batch_document self ds m
            = run (IndexVectorStoreFromDocumentPipeline.as_VectorIndexing self)
                  (PList (PDoc <$> ds)) m).
  { intros ds. unfold run. simpl.
    erewrite bind_Ok by apply collect_docs. simpl.
    change (store _ ds m)
      with (IndexVectorStoreFromDocumentPipeline.run_batch_document self ds m).
    by destruct (IndexVectorStoreFromDocumentPipeline.run_batch_document _ _ _)
      as [[??]?]. }
  assert (Hraw : ∀ ts,
            IndexVectorStoreFromDocumentPipeline.run_batch_raw self ts m
            = run (IndexVectorStoreFromDocumentPipeline.as_VectorIndexing self)
                  (PList (PStr <$> ts)) m).
  { intros ts. unfold run. simpl.
    erewrite (bind_cong_l (collect _ _)) by apply collect_strings.
    rewrite bind_assoc.
    unfold IndexVectorStoreFromDocumentPipeline.run_batch_raw.
    apply bind_ext; intros ds m1. by rewrite bind_ret_l. }
  split_and!; try done.
  - intros t. etrans; [|exact (Hraw [t])].
    unfold IndexVectorStoreFromDocumentPipeline.run_raw,
      IndexVectorStoreFromDocumentPipeline.run_batch_raw.
    simpl. rewrite !bind_assoc. apply bind_ext; intros u m1.
    apply bind_ext; intros d m2.
    by rewrite bind_assoc, !bind_ret_l.
  - intros d. apply (Hdocs [d]).
Qed.

(** X4.  Indexing stops at the first item that is neither a string nor
    a document: the [ValueError] names the type of that item, memory and
    the calls made ([uuid4], for the strings before it) are those of the
    items before it, and what comes after it, acceptable or not, is not
    looked at. *)
Theorem indexing_stops_at_first_offender self text m good bad rest :
  as_list text = good ++ bad :: rest →
  Forall (λ v, accepted v = true) good →
  accepted bad = false →
  ∃ input_ m1 evs,
    collect good [] m = (Ok input_, m1, evs)
    ∧ run self text m
      = (Raise (ValueError ("Invalid input type " +:+ type_repr bad
                            +:+ ", should be str or Document")),
         m1, evs)
    ∧ Forall (λ e, is_uuid_call e = true) evs
    ∧ uuids evs = omap (λ l, id_ <$> heap m1 !! l) (created good input_).
Proof.
  intros Hitems Hgood Hbad.
  destruct (collect_accepted good [] m Hgood)
    as (input_ & m1 & evs & Hrun & _ & Hevs & Hw & _ & Hids).
  exists input_, m1, evs. split_and!; try done.
  - unfold run. rewrite Hitems.
    erewrite (bind_cong_l (collect _ _)) by apply collect_app.
    rewrite bind_assoc. erewrite bind_Ok by exact Hrun. simpl.
    destruct bad; try done; simpl; by rewrite app_nil_r.
Qed.

(** X3.  Indexing is not atomic.  An exception of a collaborator goes
    through unchanged and ends the call where it occurs: when the
    embedding model raises nothing is written; when the vector store's
    [add] raises the document store is not called; and when the document
    store's [add] raises the vector store has been written already and
    stays so.  The document store is called when it is configured and
    true in a boolean test; one that is false there is passed over and
    the call returns with the vector store alone written. *)
Theorem indexing_is_not_atomic self text m input_ m1 evs0 ids :
  collect (as_list text) [] m = (Ok input_, m1, evs0) →
  Forall2 (λ l i, id_ <$> heap m1 !! l = Some i) input_ ids →
  let embedded := EvEmbedding (PList (PDoc <$> input_)) in
  (∀ e w1,
     emb_call (embedding self) (PList (PDoc <$> input_)) (heap m1) (world m1)
       = (Raise e, w1) →
     run self text m = (Raise e, mkMem (heap m1) w1, evs0 ++ [embedded]))
  ∧ (∀ embs w1 e w2,
       emb_call (embedding self) (PList (PDoc <$> input_)) (heap m1)
         (world m1) = (Ok embs, w1) →
       vs_add (vector_store self) embs ids w1 = (Raise e, w2) →
       run self text m
       = (Raise e, mkMem (heap m1) w2,
          evs0 ++ [embedded; EvVsAdd embs ids]))
  ∧ (∀ embs w1 w2 ds e w3,
       emb_call (embedding self) (PList (PDoc <$> input_)) (heap m1)
         (world m1) = (Ok embs, w1) →
       vs_add (vector_store self) embs ids w1 = (Ok tt, w2) →
       doc_store self = Some ds →
       ds_bool ds w2 = true →
       ds_add ds input_ (heap m1) w2 = (Raise e, w3) →
       run self text m
       = (Raise e, mkMem (heap m1) w3,
          evs0 ++ [embedded; EvVsAdd embs ids; EvDsAdd input_]))
  ∧ (∀ embs w1 w2 ds,
       emb_call (embedding self) (PList (PDoc <$> input_)) (heap m1)
         (world m1) = (Ok embs, w1) →
       vs_add (vector_store self) embs ids w1 = (Ok tt, w2) →
       doc_store self = Some ds →
       ds_bool ds w2 = false →
       run self text m
       = (Ok tt, mkMem (heap m1) w2,
          evs0 ++ [embedded; EvVsAdd embs ids])).
Proof.
  intros Hcollect Hids embedded. split_and!.
  - intros e w1 Hemb. unfold run. erewrite bind_Ok by exact Hcollect.
    unfold store. by erewrite bind_Raise by (apply call_Raise; exact Hemb).
  - intros embs w1 e w2 Hemb Hadd. unfold run.
    erewrite bind_Ok by exact Hcollect. unfold store.
    erewrite bind_Ok by (apply call_Ok; exact Hemb). simpl.
    erewrite bind_Ok by (by apply (read_all id_)). simpl.
    by erewrite bind_Raise by (apply call_Raise; exact Hadd).
  - intros embs w1 w2 ds e w3 Hemb Hadd Hds Hbool Hdsadd. unfold run.
    erewrite bind_Ok by exact Hcollect. unfold store.
    erewrite bind_Ok by (apply call_Ok; exact Hemb). simpl.
    erewrite bind_Ok by (by apply (read_all id_)). simpl.
    erewrite bind_Ok by (apply call_Ok; exact Hadd). simpl.
    rewrite Hds. unfold bind at 1, truth at 1. simpl. rewrite Hbool.
    by erewrite call_Raise by exact Hdsadd.
  - intros embs w1 w2 ds Hemb Hadd Hds Hbool. unfold run.
    erewrite bind_Ok by exact Hcollect.
    rewrite (store_steps self input_ m1 embs ids w1 w2 w2 Hemb Hids Hadd).
    + unfold store_in_use. by rewrite Hds, Hbool.
    + unfold store_in_use. by rewrite Hds, Hbool.
Qed.

(** X2.  [is_document] looks at the first element of a list and at
    nothing else: it raises [IndexError] on the empty list, and only on
    it; on any other list its answer is that for the first element
    alone, so that a list is a "document" as soon as it starts with one;
    and a list of documents that is not empty is always one. *)
Theorem is_document_reads_the_first_item
    (self : IndexVectorStoreFromDocumentPipeline.t) :
  (∀ xs,
     IndexVectorStoreFromDocumentPipeline.is_document self (PList xs)
     = Raise (IndexError "list index out of range") ↔ xs = [])
  ∧ (∀ x rest,
       IndexVectorStoreFromDocumentPipeline.is_document self
         (PList (x :: rest))
       = IndexVectorStoreFromDocumentPipeline.is_document self (PList [x]))
  ∧ (∀ text,
       IndexVectorStoreFromDocumentPipeline.is_document self text = Ok true →
       IndexVectorStoreFromDocumentPipeline.is_batch self text = true →
       ∃ d rest, text = PList (PDoc d :: rest))
  ∧ (∀ ds,
       ds ≠ [] →
       IndexVectorStoreFromDocumentPipeline.is_document self
         (PList (PDoc <$> ds)) = Ok true).
Proof.
  split_and!.
  - intros [|x xs]; [done|]. simpl. split; [|done]. by destruct x.
  - by intros x rest.
  - intros [s|d|[|[s|d|xs|n] rest]|n]; simpl; try done. by eauto.
  - by intros [|d ds].
Qed.
End MoreIndexingFacts.


(** ** More on the Cohere reranker *)
Section MoreCohereFacts.
Context `{Platform}.
Import CohereReranking.

Lemma same_but_relevance_heap_refl (h : gmap loc Document) l :
  option_Forall2 same_but_relevance (h !! l) (h !! l).
Proof. destruct (h !! l); constructor. apply same_but_relevance_refl. Qed.

Lemma same_but_relevance_heap_trans (h1 h2 h3 : gmap loc Document) l :
  option_Forall2 same_but_relevance (h1 !! l) (h2 !! l) →
  option_Forall2 same_but_relevance (h2 !! l) (h3 !! l) →
  option_Forall2 same_but_relevance (h1 !! l) (h3 !! l).
Proof.
  intros H12 H23. destruct H12 as [d1 d2 H12|]; [|done].
  inversion H23 as [? d3 H23'|]; subst. constructor.
  by eapply same_but_relevance_trans.
Qed.

Lemma annotate_app documents xs ys acc m :
  annotate documents (xs ++ ys) acc m
  = bind (annotate documents xs acc) (λ acc', annotate documents ys acc') m.
Proof.
  revert acc m. induction xs as [|r xs IH]; intros acc m; simpl.
  - by rewrite bind_ret_l.
  - rewrite bind_assoc. apply bind_ext; intros doc m1.
    rewrite bind_assoc. apply bind_ext; intros [] m2. apply IH.
Qed.

(** Whenever the annotation loop returns, its output is made of input
    documents, it called nothing, and the only change to memory is the
    relevance entry of input documents. *)
Lemma annotate_inv documents results acc m out m' evs :
  annotate documents results acc m = (Ok out, m', evs) →
  ∃ picked,
    out = acc ++ picked
    ∧ (∀ l, l ∈ picked → l ∈ documents)
    ∧ (∀ l, option_Forall2 same_but_relevance (heap m !! l) (heap m' !! l))
    ∧ (∀ l, l ∉ documents → heap m' !! l = heap m !! l)
    ∧ world m' = world m
    ∧ evs = [].
Proof.
  revert acc m. induction results as [|r results IH]; intros acc m; simpl.
  - intros [= <- <- <-]. exists []. rewrite app_nil_r.
    split_and!; try done; [by intros ? ?%elem_of_nil|].
    intros l. apply same_but_relevance_heap_refl.
  - unfold getitem.
    destruct (list_getitem documents (index r)) as [l|] eqn:Hl; [|done].
    rewrite bind_ret_l. unfold bind at 1, update at 1.
    destruct (heap m !! l) as [d|] eqn:Hd; [|done].
    destruct (annotate _ _ _ _) as [[[out1|e] m2] ev2] eqn:Hrest; [|done].
    intros [= <- <- <-].
    destruct (IH _ _ Hrest)
      as (picked & -> & Hin & Hsame & Hout & Hworld & ->).
    assert (Hldoc : l ∈ documents) by by eapply list_getitem_elem_of.
    exists (l :: picked). simpl in *. split_and!; try done.
    + by rewrite <- app_assoc.
    + intros l0 [->|?]%elem_of_cons; [done|by apply Hin].
    + intros l0. eapply same_but_relevance_heap_trans; [|apply Hsame].
      destruct (decide (l0 = l)) as [->|Hne].
      * rewrite Hd, lookup_insert_eq. constructor.
        apply same_but_relevance_set_meta.
      * rewrite lookup_insert_ne by done.
        apply same_but_relevance_heap_refl.
    + intros l0 Hl0. rewrite Hout by done. apply lookup_insert_ne.
      by intros <-.
Qed.

(** Whenever the reranker returns, it has selected among its input and
    changed nothing but relevance entries of its input. *)
Lemma cohere_run_inv cohere self documents query m out m' evs :
  run cohere self documents query m = (Ok out, m', evs) →
  (∀ l, l ∈ out → l ∈ documents)
  ∧ (∀ l, option_Forall2 same_but_relevance (heap m !! l) (heap m' !! l))
  ∧ (∀ l, l ∉ documents → heap m' !! l = heap m !! l).
Proof.
  unfold run. destruct cohere as [co|]; [|done].
  unfold bind at 1, call at 1.
  destruct (Client_new _ _ _) as [[c|e] w1]; [|done]. simpl.
  destruct documents as [|l0 docs0] eqn:Hdocs.
  { intros [= <- <- <-]. simpl. split_and!; try done.
    intros l. apply same_but_relevance_heap_refl. }
  rewrite <- Hdocs. clear Hdocs.
  unfold bind at 1.
  destruct (for_each _ documents _) as [[[cs|e] ma] eva] eqn:Hread; [|done].
  apply read_inv in Hread as [-> ->].
  unfold bind at 1, call at 1. simpl.
  destruct (Client_rerank _ _ _ _ _ _ _) as [[results|e] w2]; [|done].
  destruct (annotate _ _ _ _) as [[[out1|e] m2] ev2] eqn:Hann; [|done].
  intros [= <- <- <-].
  destruct (annotate_inv _ _ _ _ _ _ _ Hann)
    as (picked & -> & Hin & Hsame & Hout & _).
  by split_and!.
Qed.

(** X10.  When the ranking service returns an index that is out of
    range, the reranker raises [IndexError] and does not undo what it did
    for the results before it: the documents they picked carry a
    relevance score. *)
Theorem cohere_bad_index_keeps_earlier_scores co self documents query m
    _docs c w1 good bad rest w2 :
  documents ≠ [] →
  Forall2 (λ l s, content <$> heap m !! l = Some s) documents _docs →
  Client_new co (cohere_api_key self) (world m) = (Ok c, w1) →
  Client_rerank co c (model_name self) query _docs (top_k self) w1
    = (Ok (good ++ bad :: rest), w2) →
  Forall (λ r, is_Some (list_getitem documents (index r))) good →
  list_getitem documents (index bad) = None →
  ∃ picked h',
    annotate documents good [] (mkMem (heap m) w2)
      = (Ok picked, mkMem h' w2, [])
    ∧ run (Some co) self documents query m
      = (Raise (IndexError "list index out of range"), mkMem h' w2,
         [EvCohereClient (cohere_api_key self);
          EvCohereRerank (model_name self) query _docs (top_k self)])
    ∧ Forall2 (λ r l, list_getitem documents (index r) = Some l) good picked
    ∧ (∀ l, l ∈ picked →
         ∃ d', h' !! l = Some d'
               ∧ is_Some (metadata d' !! "relevance_score")).
Proof.
  intros Hne Hread Hc Hrank Hgood Hbad.
  assert (Hdocs : Forall (λ l, is_Some (heap m !! l)) documents).
  { clear -Hread. induction Hread as [|l s ?? Hl]; constructor; [|done].
    by destruct (heap m !! l). }
  destruct (annotate_spec documents good [] (mkMem (heap m) w2) Hdocs Hgood)
    as (picked & h' & Hrun & Hpick & Hsame & Hrest & Hlast).
  exists picked, h'. split_and!; try done.
  - unfold run. erewrite bind_Ok by (apply call_Ok; exact Hc). simpl.
    destruct documents as [|l0 documents0] eqn:Heq; [done|].
    rewrite <- Heq in *. clear Heq.
    erewrite bind_Ok by (by apply read_all). simpl.
    erewrite bind_Ok by (apply call_Ok; exact Hrank). simpl.
    rewrite annotate_app. erewrite bind_Ok by exact Hrun. simpl.
    unfold getitem. by rewrite Hbad.
  - intros l Hl.
    assert (Hex : ∃ i, picked !! i = Some l
                       ∧ ∀ j, i < j → picked !! j ≠ Some l).
    { clear -Hl. induction picked as [|x picked IH];
        [by apply elem_of_nil in Hl|].
      destruct (decide (l ∈ picked)) as [Hin|Hnotin].
      - destruct (IH Hin) as (i & Hi & Hlater). exists (S i).
        split; [done|]. intros [|j] Hj; [lia|]. simpl. apply Hlater. lia.
      - apply elem_of_cons in Hl as [->|?]; [|done]. exists 0.
        split; [done|]. intros [|j] Hj; [lia|]. simpl.
        intros Hj'. apply Hnotin. by eapply list_elem_of_lookup_2. }
    destruct Hex as (i & Hi & Hlater).
    destruct (Forall2_lookup_r _ _ _ _ _ Hpick Hi) as (r & Hr & _).
    destruct (Hlast i r l Hr Hi Hlater) as (d' & Hd' & Hscore).
    exists d'. split; [done|]. by rewrite Hscore.
Qed.
End MoreCohereFacts.


(** ** More on retrieval *)
Section MoreRetrievalFacts.
Context `{Platform}.
Import VectorRetrieval.

Lemma rerank_is_loop self text result m :
  rerank self text result m
  = apply_rerankers (rerankers self) 0 text result m.
Proof. unfold rerank. by destruct (rerankers self). Qed.

Lemma apply_rerankers_app xs ys i text result m :
  apply_rerankers (xs ++ ys) i text result m
  = bind (apply_rerankers xs i text result)
         (apply_rerankers ys (i + length xs) text) m.
Proof.
  revert i result m. induction xs as [|R xs IH]; intros i result m; simpl.
  - by rewrite bind_ret_l, Nat.add_0_r.
  - rewrite bind_assoc. apply bind_ext; intros result' m1.
    by rewrite IH, Nat.add_succ_r.
Qed.

(** Whenever a chain of Cohere rerankers returns, it has selected among
    the documents it started from and changed nothing but relevance
    entries of these. *)
Lemma cohere_chain_inv rs i text result m out m' evs :
  Forall is_cohere rs →
  apply_rerankers rs i text result m = (Ok out, m', evs) →
  (∀ l, l ∈ out → l ∈ result)
  ∧ (∀ l, option_Forall2 same_but_relevance (heap m !! l) (heap m' !! l))
  ∧ (∀ l, l ∉ result → heap m' !! l = heap m !! l).
Proof.
  intros Hrs. revert i result m evs.
  induction Hrs as [|R rs (cohere & self & HR) _ IH];
    intros i result m evs; simpl.
  - intros [= <- <- <-]. split_and!; try done.
    intros l. apply same_but_relevance_heap_refl.
  - unfold bind. rewrite HR.
    destruct (CohereReranking.run _ _ _ _ _) as [[[r1|e] m1] ev1] eqn:H1;
      [|done].
    destruct (apply_rerankers _ _ _ _ _) as [[[r2|e] m2] ev2] eqn:H2; [|done].
    intros [= <- <- <-].
    destruct (cohere_run_inv _ _ _ _ _ _ _ _ H1) as (Hin1 & Hsame1 & Hout1).
    destruct (IH _ _ _ _ H2) as (Hin2 & Hsame2 & Hout2).
    split_and!.
    + intros l Hl. by apply Hin1, Hin2.
    + intros l. by eapply same_but_relevance_heap_trans.
    + intros l Hl. rewrite Hout2, Hout1; [done..|].
      intros Hl1. by apply Hl, Hin1.
Qed.

(** X5.  When the embedding model returns no embedding for the query,
    the call raises [IndexError] right after that one call: the vector
    store is not queried and nothing is created. *)
Theorem no_query_embedding self text k_arg m ds w1 :
  doc_store self = Some ds →
  emb_call (embedding self) text (heap m) (world m) = (Ok [], w1) →
  run self text k_arg m
  = (Raise (IndexError "list index out of range"), mkMem (heap m) w1,
     [EvEmbedding text]).
Proof.
  intros Hds Hemb. unfold run. rewrite Hds.
  by erewrite bind_Ok by (apply call_Ok; exact Hemb).
Qed.

(** X6.  An exception of the embedding model, of the vector store or of
    the document store goes through the retrieval unchanged and ends it
    there: the stages after it are not run, no document is created and
    no reranker is called. *)
Theorem retrieval_errors_go_through self text k_arg m ds :
  doc_store self = Some ds →
  let k := effective_top_k self k_arg in
  (∀ e w1,
     emb_call (embedding self) text (heap m) (world m) = (Raise e, w1) →
     run self text k_arg m = (Raise e, mkMem (heap m) w1, [EvEmbedding text]))
  ∧ (∀ embs e0 w1 e w2,
       emb_call (embedding self) text (heap m) (world m) = (Ok embs, w1) →
       list_getitem embs 0 = Some e0 →
       vs_query (vector_store self) (DocumentWithEmbedding.embedding e0) k w1
         = (Raise e, w2) →
       run self text k_arg m
       = (Raise e, mkMem (heap m) w2,
          [EvEmbedding text;
           EvVsQuery (DocumentWithEmbedding.embedding e0) k]))
  ∧ (∀ embs e0 w1 p scores ids w2 e w3,
       emb_call (embedding self) text (heap m) (world m) = (Ok embs, w1) →
       list_getitem embs 0 = Some e0 →
       vs_query (vector_store self) (DocumentWithEmbedding.embedding e0) k w1
         = (Ok (p, scores, ids), w2) →
       ds_get ds ids w2 = (Raise e, w3) →
       run self text k_arg m
       = (Raise e, mkMem (heap m) w3,
          [EvEmbedding text;
           EvVsQuery (DocumentWithEmbedding.embedding e0) k;
           EvDsGet ids])).
Proof.
  intros Hds k. split_and!.
  - intros e w1 Hemb. unfold run. rewrite Hds.
    by erewrite bind_Raise by (apply call_Raise; exact Hemb).
  - intros embs e0 w1 e w2 Hemb He0 Hq. unfold run. rewrite Hds.
    erewrite bind_Ok by (apply call_Ok; exact Hemb). simpl.
    unfold getitem. rewrite He0, bind_ret_l.
    by erewrite bind_Raise by (apply call_Raise; exact Hq).
  - intros embs e0 w1 p scores ids w2 e w3 Hemb He0 Hq Hget.
    unfold run. rewrite Hds.
    erewrite bind_Ok by (apply call_Ok; exact Hemb). simpl.
    unfold getitem. rewrite He0, bind_ret_l.
    erewrite bind_Ok by (apply call_Ok; exact Hq). simpl.
    by erewrite bind_Raise by (apply call_Raise; exact Hget).
Qed.

(** X7.  A reranker that raises ends the chain: when the rerankers
    before it return [mid] and it raises on [mid], the retrieval raises
    the same exception, with the state that reranker left, and the
    rerankers after it are not called. *)
Theorem failing_reranker_ends_the_chain self pre R post text k_arg m
    mid m1 ev1 e m2 ev2 :
  rerankers self = pre ++ R :: post →
  run (with_rerankers pre self) text k_arg m = (Ok mid, m1, ev1) →
  rr_run R mid text m1 = (Raise e, m2, ev2) →
  run self text k_arg m
  = (Raise e, m2, ev1 ++ EvRerank (length pre) mid text :: ev2).
Proof.
  intros Hrs Hpre HR.
  rewrite run_split in Hpre.
  change (with_rerankers [] (with_rerankers pre self))
    with (with_rerankers [] self) in Hpre.
  rewrite run_split.
  erewrite bind_ext; last first.
  { intros result m0. rewrite rerank_is_loop, Hrs. apply apply_rerankers_app. }
  rewrite <- bind_assoc.
  erewrite bind_Ok; last first.
  { rewrite <- Hpre. apply bind_ext. intros result m0.
    by rewrite rerank_is_loop. }
  simpl. unfold bind. by rewrite HR.
Qed.

(** X8.  The documents a retrieval returns are objects of its own
    making: with no reranker configured they are pairwise distinct,
    none existed before the call, every object that did is unchanged,
    and nothing else was created. *)
Theorem retrieved_documents_are_new self text k_arg m
    ds embs e0 w1 p scores ids w2 docs w3 :
  doc_store self = Some ds →
  rerankers self = [] →
  emb_call (embedding self) text (heap m) (world m) = (Ok embs, w1) →
  list_getitem embs 0 = Some e0 →
  vs_query (vector_store self) (DocumentWithEmbedding.embedding e0)
           (effective_top_k self k_arg) w1 = (Ok (p, scores, ids), w2) →
  ds_get ds ids w2 = (Ok docs, w3) →
  ∃ result h',
    (run self text k_arg m).1 = (Ok result, mkMem h' w3)
    ∧ NoDup result
    ∧ (∀ l, l ∈ result → heap m !! l = None)
    ∧ heap m ⊆ h'
    ∧ dom h' = dom (heap m) ∪ list_to_set result.
Proof.
  intros Hds Hrs Hemb He0 Hq Hget.
  destruct (pair_up_spec docs scores (mkMem (heap m) w3))
    as (result & h' & Hpair & Hsub & Hnd & Hfresh & _).
  exists result, h'. split_and!; try done.
  - erewrite run_steps by done. erewrite bind_Ok by exact Hpair.
    unfold rerank. by rewrite Hrs.
  - unfold pair_up in Hpair.
    erewrite (for_each_ext _ (λ x, new_object (RetrievedDocument_new x.1 x.2)))
      in Hpair by (by intros [??] ?).
    by apply new_objects_dom in Hpair.
Qed.

(** X9.  Cohere rerankers only select and annotate.  Whenever a
    retrieval whose rerankers are all Cohere rerankers returns, every
    document of the result is a candidate built from a fetched document
    and its similarity score: a new object that still has that
    document's id and text and that similarity score as its [score], and
    differs from the candidate at most in its relevance entry.  The
    objects that existed before the call are unchanged. *)
Theorem cohere_rerankers_select_and_annotate self text k_arg m
    ds embs e0 w1 p scores ids w2 docs w3 out m' evs :
  doc_store self = Some ds →
  Forall is_cohere (rerankers self) →
  emb_call (embedding self) text (heap m) (world m) = (Ok embs, w1) →
  list_getitem embs 0 = Some e0 →
  vs_query (vector_store self) (DocumentWithEmbedding.embedding e0)
           (effective_top_k self k_arg) w1 = (Ok (p, scores, ids), w2) →
  ds_get ds ids w2 = (Ok docs, w3) →
  run self text k_arg m = (Ok out, m', evs) →
  (∀ l, l ∈ out →
     heap m !! l = None
     ∧ ∃ doc sc d',
         (doc, sc) ∈ zip docs scores
         ∧ heap m' !! l = Some d'
         ∧ same_but_relevance (RetrievedDocument_new doc sc) d')
  ∧ (∀ l d, heap m !! l = Some d → heap m' !! l = Some d).
Proof.
  intros Hds Hrs Hemb He0 Hq Hget Hrun.
  destruct (pair_up_spec docs scores (mkMem (heap m) w3))
    as (result & h' & Hpair & Hsub & _ & Hfresh & Hzip).
  erewrite run_steps in Hrun by done.
  erewrite bind_Ok in Hrun by exact Hpair. simpl in *.
  rewrite rerank_is_loop in Hrun.
  destruct (apply_rerankers _ _ _ _ _) as [[r m2] ev2] eqn:Hloop.
  injection Hrun as -> -> _.
  destruct (cohere_chain_inv _ _ _ _ _ _ _ _ Hrs Hloop)
    as (Hin & Hsame & Hout). simpl in *.
  split.
  - intros l Hl%Hin. split; [by apply Hfresh|].
    destruct (list_elem_of_lookup_1 _ _ Hl) as [i Hi].
    destruct (Forall2_lookup_l _ _ _ _ _ Hzip Hi) as ([doc sc] & Hpairi & Hl').
    specialize (Hsame l). rewrite Hl' in Hsame.
    inversion Hsame as [? d' Hd'|]; subst.
    exists doc, sc, d'. split_and!; try done.
    by eapply list_elem_of_lookup_2.
  - intros l d Hd. rewrite Hout.
    + by eapply lookup_weaken.
    + intros Hl%Hfresh. congruence.
Qed.

(** X11.  A retrieval pipeline made by [to_retrieval_pipeline] from an
    index that has no document store is unusable, whatever keyword
    arguments it is made with: every retrieval, and every question put
    to a [TextVectorQA] on top of it, raises the [ValueError] before
    anything is called; the question-answering step is never run. *)
Theorem index_without_doc_store_cannot_be_queried
    (self : VectorIndexing.t) kw :
  VectorIndexing.doc_store self = None →
  let missing :=
    ValueError
      "doc_store is not provided. Please provide a doc_store to retrieve the documents" in
  (∀ text k_arg m,
     run (ToRetrieval.to_retrieval_pipeline self kw) text k_arg m
     = (Raise missing, m, []))
  ∧ (∀ Answer (qa : PyVal → list loc → option Z → M Answer) question k_arg m,
       TextVectorQA.run
         (TextVectorQA.over (ToRetrieval.to_retrieval_pipeline self kw) qa)
         question k_arg m
       = (Raise missing, m, [])).
Proof.
  intros Hds missing.
  assert (Hrun : ∀ text k_arg m,
            run (ToRetrieval.to_retrieval_pipeline self kw) text k_arg m
            = (Raise missing, m, [])).
  { intros text k_arg m. unfold run. simpl. by rewrite Hds. }
  split; [done|]. intros Answer qa question k_arg m.
  unfold TextVectorQA.run. simpl. by erewrite bind_Raise.
Qed.

(** X17.  A question put to a [TextVectorQA] over the pipeline that
    [to_retrieval_pipeline] makes with no keyword argument: the vector
    store is asked for one neighbour, or for [top_k] when the question
    comes with one, no reranker is run, and the question-answering step
    is run once, on the question and on the candidates, one per fetched
    document and score; its answer is the answer. *)
Theorem question_goes_through_default_retrieval (self : VectorIndexing.t)
    Answer (qa : PyVal → list loc → option Z → M Answer) question k_arg m
    ds embs e0 w1 p scores ids w2 docs w3 :
  VectorIndexing.doc_store self = Some ds →
  emb_call (VectorIndexing.embedding self) question (heap m) (world m)
    = (Ok embs, w1) →
  list_getitem embs 0 = Some e0 →
  vs_query (VectorIndexing.vector_store self)
           (DocumentWithEmbedding.embedding e0) (default 1%Z k_arg) w1
    = (Ok (p, scores, ids), w2) →
  ds_get ds ids w2 = (Ok docs, w3) →
  ∃ result h',
    Forall2 (λ l '(doc, score),
               h' !! l = Some (RetrievedDocument_new doc score))
            result (zip docs scores)
    ∧ TextVectorQA.run
        (TextVectorQA.over
           (ToRetrieval.to_retrieval_pipeline self ToRetrieval.no_kwargs) qa)
        question k_arg m
      = (let '(r, m', evs) := qa question result k_arg (mkMem h' w3) in
         (r, m', EvEmbedding question
                 :: EvVsQuery (DocumentWithEmbedding.embedding e0)
                              (default 1%Z k_arg)
                 :: EvDsGet ids :: evs)).
Proof.
  intros Hds Hemb He0 Hq Hget.
  destruct (pair_up_spec docs scores (mkMem (heap m) w3))
    as (result & h' & Hpair & _ & _ & _ & Hzip).
  exists result, h'. split; [done|].
  set (r := ToRetrieval.to_retrieval_pipeline self ToRetrieval.no_kwargs).
  assert (Hk : effective_top_k r k_arg = default 1%Z k_arg)
    by by destruct k_arg.
  assert (Hrun : run r question k_arg m
                 = (Ok result, mkMem h' w3,
                    [EvEmbedding question;
                     EvVsQuery (DocumentWithEmbedding.embedding e0)
                               (default 1%Z k_arg);
                     EvDsGet ids])).
  { erewrite (run_steps r) by (first [exact Hds | exact Hemb | exact He0
                                     | rewrite Hk; exact Hq | exact Hget]).
    erewrite bind_Ok by exact Hpair. by rewrite Hk. }
  unfold TextVectorQA.run. simpl. erewrite bind_Ok by exact Hrun.
  by destruct (qa _ _ _ _) as [[??]?].
Qed.
End MoreRetrievalFacts.


(* ===================================================================== *)
(** * Part III: the statements on the test bench *)
(* ===================================================================== *)

#[local] Existing Instance Bench.platform.

(** ** Retrieval *)

Lemma retrieval_needs_doc_store_witness :
  VectorRetrieval.doc_store Bench.retrieval_without_doc_store = None
  ∧ VectorRetrieval.run Bench.retrieval_without_doc_store (PStr "cat") None
      Bench.m_indexed
    = (Raise (ValueError
         "doc_store is not provided. Please provide a doc_store to retrieve the documents"),
       Bench.m_indexed, []).
Proof.
  split; [reflexivity|].
  apply (retrieval_needs_doc_store Bench.retrieval_without_doc_store).
  reflexivity.
Defined.

(** Two Cohere rerankers in a row, keeping two and then one document. *)
Lemma rerankers_chain_witness :
  (VectorRetrieval.run
     (Bench.retrieval
        [CohereReranking.as_reranker (Some Bench.cohere) (Bench.reranker 2);
         CohereReranking.as_reranker (Some Bench.cohere) (Bench.reranker 1)]
        2)
     (PStr "cat") None Bench.m_indexed).1.1
  = Ok [3%positive].
Proof.
  erewrite (rerankers_chain
              (Bench.retrieval
                 [CohereReranking.as_reranker (Some Bench.cohere)
                    (Bench.reranker 2);
                  CohereReranking.as_reranker (Some Bench.cohere)
                    (Bench.reranker 1)] 2)).
  - reflexivity.
  - reflexivity.
  - vm_compute. reflexivity.
  - vm_compute. reflexivity.
  - vm_compute. reflexivity.
Defined.

(** Three ids come back from the vector store, two documents from the
    document store: the result has two entries. *)
Lemma short_fetch_is_zipped_witness :
  ∃ result,
    length result = 2
    ∧ (VectorRetrieval.run (Bench.retrieval [] 3) (PStr "cat") None
         Bench.m_orphan).1.1 = Ok result
    ∧ (VectorRetrieval.run (Bench.retrieval [] 3) (PStr "cat") None
         Bench.m_orphan).2
      = [EvEmbedding (PStr "cat"); EvVsQuery [1; 0]%Z 3;
         EvDsGet ["ghost"; "a"; "b"]].
Proof.
  edestruct (short_fetch_is_zipped (Bench.retrieval [] 3) (PStr "cat") None
               Bench.m_orphan)
    as (result & h' & Hlen & _ & _ & _ & Hrun).
  - reflexivity.
  - vm_compute. reflexivity.
  - vm_compute. reflexivity.
  - vm_compute. reflexivity.
  - vm_compute. reflexivity.
  - simpl. lia.
  - exists result. split; [exact Hlen|].
    rewrite (Hrun eq_refl). split; reflexivity.
Defined.

(** With no candidate and no reranker the result is empty, after one
    fetch of no ids. *)
Lemma no_candidates_witness :
  VectorRetrieval.run (Bench.retrieval [] 1) (PStr "cat") None Bench.m0
  = (Ok [], Bench.m0,
     [EvEmbedding (PStr "cat"); EvVsQuery [1; 0]%Z 1; EvDsGet []]).
Proof.
  edestruct (no_candidates (Bench.retrieval [] 1) (PStr "cat") None Bench.m0)
    as (_ & Hrun & _ & _).
  - reflexivity.
  - vm_compute. reflexivity.
  - vm_compute. reflexivity.
  - vm_compute. reflexivity.
  - vm_compute. reflexivity.
  - exact (Hrun eq_refl).
Defined.

(** C2 fails as stated: on the empty stores of the bench the vector
    store returns no candidate, and yet the document store is asked and
    the configured reranker is run. *)
Lemma empty_store_is_fetched_and_reranked :
  vs_query Bench.vstore [1; 0]%Z 1 (world Bench.m0)
  = (Ok ([], [], []), world Bench.m0)
  ∧ ¬ (∀ r m' evs,
         VectorRetrieval.run
           (Bench.retrieval
              [CohereReranking.as_reranker (Some Bench.cohere)
                 (Bench.reranker 1)] 1)
           (PStr "cat") None Bench.m0 = (r, m', evs) →
         r = Ok []
         ∧ calls is_doc_fetch evs = 0
         ∧ calls is_rerank_call evs = 0).
Proof.
  split; [reflexivity|]. intros Hclaim.
  destruct (Hclaim _ _ _ eq_refl) as (_ & Hfetch & _).
  vm_compute in Hfetch. discriminate Hfetch.
Defined.

(** The pipeline configured with [top_k = 0], called without [top_k]:
    the vector store is queried for 0 neighbours and the call returns. *)
Lemma top_k_defaults_and_is_not_checked_witness :
  VectorRetrieval.run (Bench.retrieval [] 0) (PStr "cat") None Bench.m_indexed
  = (Ok [], Bench.m_indexed,
     [EvEmbedding (PStr "cat"); EvVsQuery [1; 0]%Z 0; EvDsGet []]).
Proof.
  destruct (top_k_defaults_and_is_not_checked (Bench.retrieval [] 0)
              (PStr "cat") None Bench.m_indexed)
    as (_ & _ & Hrun).
  edestruct (Hrun Bench.dstore) as (_ & _ & Hok).
  - reflexivity.
  - vm_compute. reflexivity.
  - vm_compute. reflexivity.
  - edestruct Hok as (result & h' & Hpair & _ & Hnone).
    + vm_compute. reflexivity.
    + vm_compute. reflexivity.
    + rewrite (Hnone eq_refl). vm_compute in Hpair.
      injection Hpair as <- <-. reflexivity.
Defined.

(** C3 fails as stated: an effective [top_k] of 0, or of -1, is not
    positive, and the call raises nothing. *)
Lemma non_positive_top_k_is_accepted :
  (VectorRetrieval.effective_top_k (Bench.retrieval [] 0) None ≤ 0)%Z
  ∧ ¬ (∃ e m' evs,
         VectorRetrieval.run (Bench.retrieval [] 0) (PStr "cat") None
           Bench.m_indexed = (Raise e, m', evs))
  ∧ (VectorRetrieval.effective_top_k (Bench.retrieval [] 1) (Some (-1)%Z) ≤ 0)%Z
  ∧ ¬ (∃ e m' evs,
         VectorRetrieval.run (Bench.retrieval [] 1) (PStr "cat") (Some (-1)%Z)
           Bench.m_indexed = (Raise e, m', evs)).
Proof.
  split_and!.
  - done.
  - intros (e & m' & evs & Hrun). vm_compute in Hrun. discriminate Hrun.
  - done.
  - intros (e & m' & evs & Hrun). vm_compute in Hrun. discriminate Hrun.
Defined.

(** ** The Cohere reranker *)

Lemma empty_input_skips_the_service_witness :
  CohereReranking.run (Some Bench.cohere) (Bench.reranker 1) [] (PStr "cat")
    Bench.m_cat_dog
  = (Ok [], Bench.m_cat_dog, [EvCohereClient ""])
  ∧ Bench.rerank_calls
      (world (CohereReranking.run (Some Bench.cohere) (Bench.reranker 1) []
                (PStr "cat") Bench.m_cat_dog).1.2) = 0.
Proof.
  destruct (empty_input_skips_the_service (Some Bench.cohere)
              (Bench.reranker 1) (PStr "cat") Bench.m_cat_dog)
    as (_ & _ & Hrun & _).
  rewrite (Hrun Bench.cohere "" (world Bench.m_cat_dog) eq_refl eq_refl).
  split; reflexivity.
Defined.

(** C6 fails as stated: without the [cohere] package, or with a client
    that cannot be built, a call with no document raises instead of
    returning the empty list. *)
Lemma empty_input_still_needs_the_client :
  CohereReranking.run None (Bench.reranker 1) [] (PStr "cat") Bench.m_cat_dog
  = (Raise (ImportError
       "Please install Cohere `pip install cohere` to use Cohere Reranking"),
     Bench.m_cat_dog, [])
  ∧ CohereReranking.run (Some Bench.cohere_bad_key) (Bench.reranker 1) []
      (PStr "cat") Bench.m_cat_dog
    = (Raise (Foreign "invalid api token"), Bench.m_cat_dog,
       [EvCohereClient ""])
  ∧ ¬ (∀ cohere, ∃ m' evs,
         CohereReranking.run cohere (Bench.reranker 1) [] (PStr "cat")
           Bench.m_cat_dog = (Ok [], m', evs)).
Proof.
  split_and!; [reflexivity..|].
  intros Hclaim. destruct (Hclaim None) as (m' & evs & Hrun).
  discriminate Hrun.
Defined.

(** The service ranks "dog" before "cat": the output is the two input
    references in that order, and no object was created. *)
Lemma cohere_annotates_in_place_witness :
  ∃ h',
    (CohereReranking.run (Some Bench.cohere) (Bench.reranker 2)
       [1%positive; 2%positive] (PStr "cat") Bench.m_cat_dog).1
    = (Ok [2%positive; 1%positive],
       mkMem h' (Bench.mkWorld [] [] 0 [] 1))
    ∧ dom h' = dom (heap Bench.m_cat_dog)
    ∧ option_Forall2 same_but_relevance (Some Bench.dog) (h' !! 2%positive).
Proof.
  edestruct (cohere_annotates_in_place Bench.cohere (Bench.reranker 2)
               [1%positive; 2%positive] (PStr "cat") Bench.m_cat_dog
               ["cat"; "dog"])
    as (out & h' & Hrun & Hpick & _ & Hdom & Hsame & _).
  - done.
  - repeat constructor.
  - vm_compute. reflexivity.
  - vm_compute. reflexivity.
  - repeat (constructor; [by eexists|]). constructor.
  - exists h'. split_and!.
    + rewrite Hrun. simpl. f_equal. f_equal.
      inversion Hpick as [|???? H1 Hpick']; subst.
      inversion Hpick' as [|???? H2 Hpick'']; subst.
      inversion Hpick''; subst.
      vm_compute in H1, H2.
      injection H1 as <-. injection H2 as <-. reflexivity.
    + exact Hdom.
    + exact (Hsame 2%positive).
Defined.

(** ** Indexing *)

(** A string and a document: one [uuid4] call, one batch of two. *)
Lemma indexing_writes_one_batch_witness :
  (VectorIndexing.run Bench.indexing (PList [PStr "cat"; PDoc 2%positive])
     Bench.m_cat_dog).1.1 = Ok tt
  ∧ (VectorIndexing.run Bench.indexing (PList [PStr "cat"; PDoc 2%positive])
       Bench.m_cat_dog).2
    = [EvUuid4 "uuid-0";
       EvEmbedding (PList [PDoc 3%positive; PDoc 2%positive]);
       EvVsAdd [DocumentWithEmbedding.mk [1; 0]%Z;
                DocumentWithEmbedding.mk [0; 1]%Z] ["uuid-0"; "b"];
       EvDsAdd [3%positive; 2%positive]].
Proof.
  edestruct (indexing_writes_one_batch Bench.indexing
               (PList [PStr "cat"; PDoc 2%positive]) Bench.m_cat_dog)
    with (ids := ["uuid-0"; "b"]) as (Hrun & _).
  - vm_compute. reflexivity.
  - vm_compute. reflexivity.
  - repeat constructor.
  - vm_compute. reflexivity.
  - split; [reflexivity|]. vm_compute. reflexivity.
  - rewrite Hrun. split; reflexivity.
Defined.

(** C1 fails as stated, twice.  A document store whose class counts
    its documents is configured and still empty: the two documents go
    to the vector store and the document store is not called.  And an
    embedding model that returns one embedding for two documents: that
    one embedding is written with the two ids. *)
Lemma indexing_checks_neither_store_nor_count :
  is_Some (VectorIndexing.doc_store
             (Bench.indexing_with (Some Bench.dstore_sized)))
  ∧ VectorIndexing.run (Bench.indexing_with (Some Bench.dstore_sized))
      (PList [PDoc 1%positive; PDoc 2%positive]) Bench.m_cat_dog
    = (Ok tt,
       mkMem (heap Bench.m_cat_dog)
             (Bench.mkWorld [("a", [1; 0]); ("b", [0; 1])]%Z [] 0 [] 0),
       [EvEmbedding (PList [PDoc 1%positive; PDoc 2%positive]);
        EvVsAdd [DocumentWithEmbedding.mk [1; 0]%Z;
                 DocumentWithEmbedding.mk [0; 1]%Z] ["a"; "b"]])
  ∧ ¬ (∀ r m' evs,
         VectorIndexing.run (Bench.indexing_with (Some Bench.dstore_sized))
           (PList [PDoc 1%positive; PDoc 2%positive]) Bench.m_cat_dog
         = (r, m', evs) →
         calls is_doc_add evs = 1)
  ∧ (VectorIndexing.run Bench.indexing_embedding_once
       (PList [PDoc 1%positive; PDoc 2%positive]) Bench.m_cat_dog).1.1 = Ok tt
  ∧ (VectorIndexing.run Bench.indexing_embedding_once
       (PList [PDoc 1%positive; PDoc 2%positive]) Bench.m_cat_dog).2
    = [EvEmbedding (PList [PDoc 1%positive; PDoc 2%positive]);
       EvVsAdd [DocumentWithEmbedding.mk [1; 0]%Z] ["a"; "b"];
       EvDsAdd [1%positive; 2%positive]]
  ∧ ¬ (∀ embs ids,
         EvVsAdd embs ids
         ∈ (VectorIndexing.run Bench.indexing_embedding_once
              (PList [PDoc 1%positive; PDoc 2%positive]) Bench.m_cat_dog).2 →
         length embs = 2).
Proof.
  split_and!.
  - by eexists.
  - vm_compute. reflexivity.
  - intros Hclaim. specialize (Hclaim _ _ _ eq_refl).
    vm_compute in Hclaim. discriminate Hclaim.
  - vm_compute. reflexivity.
  - vm_compute. reflexivity.
  - intros Hclaim.
    specialize (Hclaim [DocumentWithEmbedding.mk [1; 0]%Z] ["a"; "b"]).
    assert (Hlen : length [DocumentWithEmbedding.mk (H := Bench.platform)
                             [1; 0]%Z] = 2).
    { apply Hclaim. right. left. }
    discriminate Hlen.
Defined.

(** An integer among the items is refused; a string and a document are
    taken, the string as a new object.  So it is with an input that is
    not a list: one integer is refused and nothing is done, one string
    is indexed as one new document, and one document as itself. *)
Lemma indexing_normalises_its_input_witness :
  (∃ item m1 evs,
     accepted item = false
     ∧ VectorIndexing.run Bench.indexing (PList [PStr "cat"; PObj "int"])
         Bench.m_cat_dog
       = (Raise (ValueError ("Invalid input type " +:+ type_repr item
                             +:+ ", should be str or Document")),
          m1, evs))
  ∧ (∃ input_ m1 evs,
       VectorIndexing.collect [PStr "cat"; PDoc 2%positive] [] Bench.m_cat_dog
       = (Ok input_, m1, evs)
       ∧ Forall2 (wrapped (heap Bench.m_cat_dog) (heap m1))
                 [PStr "cat"; PDoc 2%positive] input_)
  ∧ VectorIndexing.run Bench.indexing (PObj "int") Bench.m_cat_dog
    = (Raise (ValueError
         "Invalid input type <class 'int'>, should be str or Document"),
       Bench.m_cat_dog, [])
  ∧ (∃ input_ m1 evs,
       VectorIndexing.run Bench.indexing (PStr "cat") Bench.m_cat_dog
       = (let '(r, m2, evs2) := VectorIndexing.store Bench.indexing input_ m1 in
          (r, m2, evs ++ evs2))
       ∧ Forall2 (wrapped (heap Bench.m_cat_dog) (heap m1))
                 [PStr "cat"] input_)
  ∧ (∃ l,
       heap Bench.m_cat_dog !! l = None
       ∧ VectorIndexing.run Bench.indexing (PStr "cat") Bench.m_cat_dog
         = (let '(r, m2, evs2) :=
              VectorIndexing.store Bench.indexing [l]
                (mkMem (<[l := Document_new "cat" "uuid-0"]>
                          (heap Bench.m_cat_dog))
                       (Bench.mkWorld [] [] 1 [] 0)) in
            (r, m2, EvUuid4 "uuid-0" :: evs2)))
  ∧ VectorIndexing.run Bench.indexing (PDoc 2%positive) Bench.m_cat_dog
    = VectorIndexing.store Bench.indexing [2%positive] Bench.m_cat_dog.
Proof.
  split_and!.
  - destruct (proj1 (indexing_normalises_its_input Bench.indexing
                       (PList [PStr "cat"; PObj "int"]) Bench.m_cat_dog))
      as (item & m1 & evs & _ & Hitem & Hrun & _).
    + right. left. reflexivity.
    + exists item, m1, evs. split; assumption.
  - destruct (indexing_normalises_its_input Bench.indexing
                (PList [PStr "cat"; PDoc 2%positive]) Bench.m_cat_dog)
      as (_ & Hacc & _).
    destruct Hacc as (input_ & m1 & evs & Hrun & _ & Hw & _).
    + repeat constructor.
    + exists input_, m1, evs. split; assumption.
  - destruct (indexing_normalises_its_input Bench.indexing
                (PObj "int") Bench.m_cat_dog)
      as (_ & _ & _ & _ & Hobj).
    exact (Hobj "int" eq_refl).
  - destruct (indexing_normalises_its_input Bench.indexing
                (PStr "cat") Bench.m_cat_dog)
      as (_ & Hacc & _).
    destruct Hacc as (input_ & m1 & evs & _ & Hrun & Hw & _).
    + repeat constructor.
    + exists input_, m1, evs. split; assumption.
  - destruct (indexing_normalises_its_input Bench.indexing
                (PStr "cat") Bench.m_cat_dog)
      as (_ & _ & Hstr & _).
    destruct (Hstr "cat" eq_refl) as (l & u & w' & Hu & Hl & Hrun).
    injection Hu as <- <-. exists l. split; assumption.
  - destruct (indexing_normalises_its_input Bench.indexing
                (PDoc 2%positive) Bench.m_cat_dog)
      as (_ & _ & _ & Hdoc & _).
    exact (Hdoc 2%positive eq_refl).
Defined.

(** ** Persistence *)

(** With both stores, both are saved; without a document store the
    vector store is saved and the call raises. *)
Lemma save_and_load_need_both_stores_witness :
  IndexVectorStoreFromDocumentPipeline.save_default
    (Bench.pipeline (Some Bench.dstore)) (inl "idx") Bench.m0
  = (Ok tt,
     mkMem ∅ (Bench.mkWorld [] [] 0 ["idx/vectorstore"; "idx/docstore"] 0),
     [EvVsSave "idx/vectorstore"; EvDsSave "idx/docstore"])
  ∧ IndexVectorStoreFromDocumentPipeline.save_default
      (Bench.pipeline None) (inl "idx") Bench.m0
    = (Raise (AttributeError "'NoneType' object has no attribute 'save'"),
       mkMem ∅ (Bench.mkWorld [] [] 0 ["idx/vectorstore"] 0),
       [EvVsSave "idx/vectorstore"]).
Proof.
  split.
  - rewrite (proj1 (proj1 (save_and_load_need_both_stores
                             (Bench.pipeline (Some Bench.dstore))
                             (inl "idx") Bench.m0)
                          Bench.dstore
                          (Bench.mkWorld [] [] 0 ["idx/vectorstore"] 0)
                          eq_refl)
                   eq_refl).
    reflexivity.
  - destruct (proj2 (save_and_load_need_both_stores (Bench.pipeline None)
                       (inl "idx") Bench.m0) eq_refl)
      as (_ & _ & Hsave & _).
    exact (Hsave _ eq_refl).
Defined.


(** ** The scenario of the specification

    Documents [a] "cat" and [b] "dog" are indexed; the query "cat", whose
    embedding is that of [a], with [top_k = 1] returns [a] with score 1. *)
Example cat_is_nearest_to_cat :
  ∃ l m' evs,
    VectorRetrieval.run (Bench.retrieval [] 1) (PStr "cat") None
      Bench.m_indexed = (Ok [l], m', evs)
    ∧ heap m' !! l = Some (RetrievedDocument_new Bench.cat 1%Z).
Proof. do 3 eexists. split; vm_compute; reflexivity. Qed.

(** ** Two references to one document

    The input list names the same object twice and the service picks
    both positions: the output names that object twice, and the object
    carries the score written last. *)
Example one_object_picked_twice :
  (CohereReranking.run (Some Bench.cohere) (Bench.reranker 2)
     [1%positive; 1%positive] (PStr "cat") Bench.m_cat_dog).1.1
  = Ok [1%positive; 1%positive]
  ∧ (heap (CohereReranking.run (Some Bench.cohere) (Bench.reranker 2)
             [1%positive; 1%positive] (PStr "cat") Bench.m_cat_dog).1.2
       !! 1%positive) ≫= (λ d, metadata d !! "relevance_score")
    = Some (MFloat 10%Z)
  ∧ heap (CohereReranking.run (Some Bench.cohere) (Bench.reranker 2)
            [1%positive; 1%positive] (PStr "cat") Bench.m_cat_dog).1.2
      !! 2%positive
    = Some Bench.dog.
Proof. split_and!; vm_compute; reflexivity. Qed.

(** ** The registry of public events *)

(** Membership in a list of strings, by computation. *)
Ltac by_computation := apply (bool_decide_unpack _); vm_compute; exact I.

Lemma subscriptions_are_kept_in_order_witness :
  ∃ s1 s2 l,
    BaseApp.declare_event "onSave" BenchApp.app0 = (inr tt, s1)
    ∧ BaseApp.for_all (BaseApp.subscribe_event "onSave") ["audit"; "backup"] s1
      = (inr tt, s2)
    ∧ BaseApp.get_event "onSave" s2 = (inr l, s2)
    ∧ BaseApp.read s2 l = Some ["audit"; "backup"].
Proof.
  destruct (subscriptions_are_kept_in_order BenchApp.app0 "onSave"
              ["audit"; "backup"] init_ok eq_refl)
    as (s1 & s2 & l & H1 & H2 & H3 & H4 & _).
  exists s1, s2, l. repeat split; assumption.
Defined.

(** A second declaration of [onSave] raises, a subscription to an
    undeclared event raises, and [onSave] keeps its list, which still
    starts with [audit]. *)
Lemma registry_only_grows_witness :
  ∃ l new,
    BaseApp._events
      (after_calls [DeclareEvent "onSave"; SubscribeEvent "onLoad" "x";
                    SubscribeEvent "onSave" "backup"; GetEvent "onSave"]
                   BenchApp.app1) !! "onSave" = Some l
    ∧ BaseApp.read
        (after_calls [DeclareEvent "onSave"; SubscribeEvent "onLoad" "x";
                      SubscribeEvent "onSave" "backup"; GetEvent "onSave"]
                     BenchApp.app1) l = Some (["audit"] ++ new).
Proof.
  edestruct (proj2 (registry_only_grows
                      [DeclareEvent "onSave"; SubscribeEvent "onLoad" "x";
                       SubscribeEvent "onSave" "backup"; GetEvent "onSave"]
                      BenchApp.app1
                      (after_calls_ok _ _ init_ok)) "onSave")
    as [Hname [new Hnew]].
  - vm_compute. reflexivity.
  - vm_compute. reflexivity.
  - eexists _, new. split; [exact Hname|exact Hnew].
Defined.

Lemma declare_public_events_needs_new_names_witness :
  ∃ app',
    BasePage.declare_public_events BenchApp.site BenchApp.app1 = (inr tt, app')
    ∧ BaseApp.subscribers app' "onChat" = Some []
    ∧ BaseApp.subscribers app' "onSave" = Some ["audit"].
Proof.
  destruct (declare_public_events_needs_new_names BenchApp.site BenchApp.app1
              (after_calls_ok _ _ init_ok)) as [[_ Hruns] Heffect].
  destruct Hruns as [app' Hrun].
  - split; [|intros n Hn; vm_compute in Hn].
    + by_computation.
    + vm_compute.
      repeat (apply elem_of_cons in Hn as [->|Hn]; [reflexivity|]).
      by apply elem_of_nil in Hn.
  - exists app'. destruct (Heffect app' Hrun) as (_ & _ & Hnew & Hold).
    split_and!; [exact Hrun|..].
    + apply Hnew. by_computation.
    + rewrite Hold; [reflexivity|]. by_computation.
Defined.

(** [onLoad] is an event of the top page and of a page below it. *)
Lemma declare_public_events_stops_at_clash_witness :
  ∃ app',
    BasePage.declare_public_events BenchApp.site_with_clash BenchApp.app0
    = (inl (BaseApp.HookAlreadyDeclared "Hook onLoad is already declared"),
       app')
    ∧ BaseApp.subscribers app' "onChat" = Some [].
Proof.
  destruct (declare_public_events_stops_at_clash BenchApp.site_with_clash
              BenchApp.app0 ["onLoad"; "onChat"] "onLoad" ["onUpload"] init_ok)
    as (app' & _ & Hrun & Hgood).
  - reflexivity.
  - by_computation.
  - intros n _. reflexivity.
  - left. by_computation.
  - exists app'. split; [exact Hrun|]. apply Hgood. by_computation.
Defined.

Lemma get_event_hands_out_the_list_itself_witness :
  ∃ l app',
    BaseApp.get_event "onSave" BenchApp.app1 = (inr l, BenchApp.app1)
    ∧ BaseApp.subscribe_event "onSave" "backup" BenchApp.app1 = (inr tt, app')
    ∧ BaseApp.read BenchApp.app1 l = Some ["audit"]
    ∧ BaseApp.read app' l = Some ["audit"; "backup"].
Proof.
  edestruct (get_event_hands_out_the_list_itself BenchApp.app1 "onSave")
    with (d := "backup") as (app' & old & Hsub & Hold & Hnew & _).
  - exact (after_calls_ok _ _ init_ok).
  - vm_compute. reflexivity.
  - exists 1%positive, app'. split_and!; [reflexivity|exact Hsub|..].
    + reflexivity.
    + rewrite Hnew. f_equal. vm_compute in Hold. by injection Hold as <-.
Defined.

(** ** More on indexing *)

Lemma is_document_reads_the_first_item_witness :
  IndexVectorStoreFromDocumentPipeline.is_document (Bench.pipeline None)
    (PList [PDoc 1%positive; PDoc 2%positive]) = Ok true
  ∧ ∃ d rest,
      PList [PDoc 1%positive; PStr "dog"] = PList (PDoc d :: rest).
Proof.
  destruct (is_document_reads_the_first_item (Bench.pipeline None))
    as (_ & _ & Hfirst & Hdocs).
  split.
  - apply (Hdocs [1%positive; 2%positive]). discriminate.
  - apply Hfirst; reflexivity.
Defined.

(** The document store is down: the call raises, and the vector store
    holds the two vectors all the same.  And a document store that is
    empty and false for it: the call returns, the vector store written
    and the document store not called. *)
Lemma indexing_is_not_atomic_witness :
  (VectorIndexing.run (Bench.indexing_with (Some Bench.dstore_down))
     (PList [PDoc 1%positive; PDoc 2%positive]) Bench.m_cat_dog).1.1
  = Raise (Foreign "document store is down")
  ∧ Bench.vectors
      (world (VectorIndexing.run (Bench.indexing_with (Some Bench.dstore_down))
                (PList [PDoc 1%positive; PDoc 2%positive])
                Bench.m_cat_dog).1.2)
    = [("a", [1; 0]%Z); ("b", [0; 1]%Z)]
  ∧ VectorIndexing.run (Bench.indexing_with (Some Bench.dstore_sized))
      (PList [PDoc 1%positive; PDoc 2%positive]) Bench.m_cat_dog
    = (Ok tt,
       mkMem (heap Bench.m_cat_dog)
             (Bench.mkWorld [("a", [1; 0]); ("b", [0; 1])]%Z [] 0 [] 0),
       [EvEmbedding (PList [PDoc 1%positive; PDoc 2%positive]);
        EvVsAdd [Bench.embed_text "cat"; Bench.embed_text "dog"] ["a"; "b"]]).
Proof.
  destruct (indexing_is_not_atomic
              (Bench.indexing_with (Some Bench.dstore_down))
              (PList [PDoc 1%positive; PDoc 2%positive]) Bench.m_cat_dog
              [1%positive; 2%positive] Bench.m_cat_dog [] ["a"; "b"])
    as (_ & _ & Hds & _).
  - reflexivity.
  - repeat constructor.
  - destruct (indexing_is_not_atomic
                (Bench.indexing_with (Some Bench.dstore_sized))
                (PList [PDoc 1%positive; PDoc 2%positive]) Bench.m_cat_dog
                [1%positive; 2%positive] Bench.m_cat_dog [] ["a"; "b"])
      as (_ & _ & _ & Hskip).
    + reflexivity.
    + repeat constructor.
    + rewrite (Hds [Bench.embed_text "cat"; Bench.embed_text "dog"] Bench.w0
                 (Bench.add_vectors
                    [Bench.embed_text "cat"; Bench.embed_text "dog"]
                    ["a"; "b"] Bench.w0).2
                 Bench.dstore_down (Foreign "document store is down")
                 (Bench.add_vectors
                    [Bench.embed_text "cat"; Bench.embed_text "dog"]
                    ["a"; "b"] Bench.w0).2
                 eq_refl eq_refl eq_refl eq_refl eq_refl).
      rewrite (Hskip [Bench.embed_text "cat"; Bench.embed_text "dog"] Bench.w0
                 (Bench.add_vectors
                    [Bench.embed_text "cat"; Bench.embed_text "dog"]
                    ["a"; "b"] Bench.w0).2
                 Bench.dstore_sized eq_refl eq_refl eq_refl eq_refl).
      split_and!; reflexivity.
Defined.

(** The integer stops the call; the float after it is not reached. *)
Lemma indexing_stops_at_first_offender_witness :
  (VectorIndexing.run Bench.indexing
     (PList [PStr "cat"; PObj "int"; PStr "dog"; PObj "float"])
     Bench.m_cat_dog).1.1
  = Raise (ValueError
             "Invalid input type <class 'int'>, should be str or Document")
  ∧ Forall (λ e, is_uuid_call e = true)
      (VectorIndexing.run Bench.indexing
         (PList [PStr "cat"; PObj "int"; PStr "dog"; PObj "float"])
         Bench.m_cat_dog).2.
Proof.
  destruct (indexing_stops_at_first_offender Bench.indexing
              (PList [PStr "cat"; PObj "int"; PStr "dog"; PObj "float"])
              Bench.m_cat_dog [PStr "cat"] (PObj "int")
              [PStr "dog"; PObj "float"])
    as (input_ & m1 & evs & _ & Hrun & Hevs & _).
  - reflexivity.
  - repeat constructor.
  - reflexivity.
  - rewrite Hrun. split; [reflexivity|exact Hevs].
Defined.

(** ** More on retrieval *)

(** The empty list as a query: the bench embeds it into no vector. *)
Lemma no_query_embedding_witness :
  (VectorRetrieval.run (Bench.retrieval [] 1) (PList []) None
     Bench.m_indexed).1.1
  = Raise (IndexError "list index out of range")
  ∧ (VectorRetrieval.run (Bench.retrieval [] 1) (PList []) None
       Bench.m_indexed).2
    = [EvEmbedding (PList [])].
Proof.
  rewrite (no_query_embedding (Bench.retrieval [] 1) (PList []) None
             Bench.m_indexed Bench.dstore (world Bench.m_indexed)
             eq_refl eq_refl).
  split; reflexivity.
Defined.

Lemma retrieval_errors_go_through_witness :
  (VectorRetrieval.run (Bench.retrieval_with Bench.dstore_down) (PStr "cat")
     None Bench.m_indexed).1.1
  = Raise (Foreign "document store is down")
  ∧ (VectorRetrieval.run (Bench.retrieval_with Bench.dstore_down) (PStr "cat")
       None Bench.m_indexed).2
    = [EvEmbedding (PStr "cat"); EvVsQuery [1; 0]%Z 1; EvDsGet ["a"]].
Proof.
  destruct (retrieval_errors_go_through (Bench.retrieval_with Bench.dstore_down)
              (PStr "cat") None Bench.m_indexed Bench.dstore_down eq_refl)
    as (_ & _ & Hget).
  erewrite Hget; [|vm_compute; reflexivity..].
  split; reflexivity.
Defined.

(** Three rerankers, the second without the [cohere] package: the
    first two are called, the third is not. *)
Lemma failing_reranker_ends_the_chain_witness :
  (VectorRetrieval.run
     (Bench.retrieval
        [CohereReranking.as_reranker (Some Bench.cohere) (Bench.reranker 2);
         CohereReranking.as_reranker None (Bench.reranker 1);
         CohereReranking.as_reranker (Some Bench.cohere) (Bench.reranker 1)]
        2)
     (PStr "cat") None Bench.m_indexed).1.1
  = Raise (ImportError
             "Please install Cohere `pip install cohere` to use Cohere Reranking")
  ∧ calls is_rerank_call
      (VectorRetrieval.run
         (Bench.retrieval
            [CohereReranking.as_reranker (Some Bench.cohere) (Bench.reranker 2);
             CohereReranking.as_reranker None (Bench.reranker 1);
             CohereReranking.as_reranker (Some Bench.cohere) (Bench.reranker 1)]
            2)
         (PStr "cat") None Bench.m_indexed).2
    = 2.
Proof.
  erewrite (failing_reranker_ends_the_chain
              (Bench.retrieval
                 [CohereReranking.as_reranker (Some Bench.cohere)
                    (Bench.reranker 2);
                  CohereReranking.as_reranker None (Bench.reranker 1);
                  CohereReranking.as_reranker (Some Bench.cohere)
                    (Bench.reranker 1)] 2)
              [CohereReranking.as_reranker (Some Bench.cohere)
                 (Bench.reranker 2)]
              (CohereReranking.as_reranker None (Bench.reranker 1))
              [CohereReranking.as_reranker (Some Bench.cohere)
                 (Bench.reranker 1)]);
    [| reflexivity
     | apply outcome_with; vm_compute; reflexivity
     | reflexivity ].
  split; [reflexivity|vm_compute; reflexivity].
Defined.

Lemma retrieved_documents_are_new_witness :
  ∃ result,
    (VectorRetrieval.run (Bench.retrieval [] 2) (PStr "cat") None
       Bench.m_indexed).1.1 = Ok result
    ∧ NoDup result
    ∧ ∀ l, l ∈ result → heap Bench.m_indexed !! l = None.
Proof.
  edestruct (retrieved_documents_are_new (Bench.retrieval [] 2) (PStr "cat")
               None Bench.m_indexed)
    as (result & h' & Hrun & Hnd & Hfresh & _).
  - reflexivity.
  - reflexivity.
  - vm_compute. reflexivity.
  - vm_compute. reflexivity.
  - vm_compute. reflexivity.
  - vm_compute. reflexivity.
  - exists result. split_and!; [by rewrite Hrun|exact Hnd|exact Hfresh].
Defined.

(** After two Cohere rerankers the indexed documents are as they were. *)
Lemma cohere_rerankers_select_and_annotate_witness :
  heap (VectorRetrieval.run
          (Bench.retrieval
             [CohereReranking.as_reranker (Some Bench.cohere)
                (Bench.reranker 2);
              CohereReranking.as_reranker (Some Bench.cohere)
                (Bench.reranker 1)] 2)
          (PStr "cat") None Bench.m_indexed).1.2 !! 1%positive
  = Some Bench.cat.
Proof.
  edestruct (cohere_rerankers_select_and_annotate
               (Bench.retrieval
                  [CohereReranking.as_reranker (Some Bench.cohere)
                     (Bench.reranker 2);
                   CohereReranking.as_reranker (Some Bench.cohere)
                     (Bench.reranker 1)] 2)
               (PStr "cat") None Bench.m_indexed)
    as [_ Hold].
  - reflexivity.
  - repeat constructor; by do 2 eexists.
  - vm_compute. reflexivity.
  - vm_compute. reflexivity.
  - vm_compute. reflexivity.
  - vm_compute. reflexivity.
  - apply outcome_with. vm_compute. reflexivity.
  - apply Hold. reflexivity.
Defined.

Lemma index_without_doc_store_cannot_be_queried_witness :
  TextVectorQA.run
    (TextVectorQA.over
       (ToRetrieval.to_retrieval_pipeline (Bench.indexing_with None)
          ToRetrieval.no_kwargs)
       Bench.count_documents)
    (PStr "cat") None Bench.m_indexed
  = (Raise (ValueError
       "doc_store is not provided. Please provide a doc_store to retrieve the documents"),
     Bench.m_indexed, []).
Proof.
  apply (index_without_doc_store_cannot_be_queried (Bench.indexing_with None)
           ToRetrieval.no_kwargs eq_refl).
Defined.

(** One neighbour is asked for, and one document is counted. *)
Lemma question_goes_through_default_retrieval_witness :
  (TextVectorQA.run
     (TextVectorQA.over
        (ToRetrieval.to_retrieval_pipeline Bench.indexing ToRetrieval.no_kwargs)
        Bench.count_documents)
     (PStr "cat") None Bench.m_indexed).1.1 = Ok 1
  ∧ (TextVectorQA.run
       (TextVectorQA.over
          (ToRetrieval.to_retrieval_pipeline Bench.indexing
             ToRetrieval.no_kwargs)
          Bench.count_documents)
       (PStr "cat") None Bench.m_indexed).2
    = [EvEmbedding (PStr "cat"); EvVsQuery [1; 0]%Z 1; EvDsGet ["a"]].
Proof.
  edestruct (question_goes_through_default_retrieval Bench.indexing nat
               Bench.count_documents (PStr "cat") None Bench.m_indexed)
    as (result & h' & Hzip & Hrun).
  - reflexivity.
  - vm_compute. reflexivity.
  - vm_compute. reflexivity.
  - vm_compute. reflexivity.
  - vm_compute. reflexivity.
  - rewrite Hrun. apply Forall2_length in Hzip. simpl in *.
    unfold Bench.count_documents, ret. simpl. rewrite Hzip.
    split; reflexivity.
Defined.

(** ** More on the Cohere reranker *)

(** The service counts from 1: the first result picks "dog", the second
    is out of range, and "dog" keeps the score it was given. *)
Lemma cohere_bad_index_keeps_earlier_scores_witness :
  ∃ h' d',
    (CohereReranking.run (Some Bench.cohere_from_one) (Bench.reranker 2)
       [1%positive; 2%positive] (PStr "cat") Bench.m_cat_dog).1
    = (Raise (IndexError "list index out of range"),
       mkMem h' (Bench.mkWorld [] [] 0 [] 1))
    ∧ h' !! 2%positive = Some d'
    ∧ is_Some (metadata d' !! "relevance_score").
Proof.
  edestruct (cohere_bad_index_keeps_earlier_scores Bench.cohere_from_one
               (Bench.reranker 2) [1%positive; 2%positive] (PStr "cat")
               Bench.m_cat_dog ["cat"; "dog"])
    with (good := [@mkRerankResult Bench.platform 1%Z 10%Z])
         (bad := @mkRerankResult Bench.platform 2%Z 20%Z)
         (rest := @nil (@RerankResult Bench.platform))
    as (picked & h' & _ & Hrun & Hpick & Hscore).
  - done.
  - repeat constructor.
  - vm_compute. reflexivity.
  - vm_compute. reflexivity.
  - repeat (constructor; [by eexists|]). constructor.
  - reflexivity.
  - inversion Hpick as [|???? H1 Hpick']; subst.
    inversion Hpick'; subst. vm_compute in H1. injection H1 as <-.
    destruct (Hscore 2%positive) as (d' & Hd' & Hmeta); [by left|].
    exists h', d'. split_and!; [by rewrite Hrun|exact Hd'|exact Hmeta].
Defined.
